(** * EtherLiftFundraising: a shallow embedding of the campaign contract

    The development embeds [contracts/EtherLiftFundraising.sol] as state
    transformers over a record of the contract's storage, and proves the
    properties of the confidential-campaign state machine.

    - Solidity's [require] and reverting external calls are modelled by a
      state-and-revert monad [M]; an external entry point runs inside
      [transact], which restores the pre-state when the body reverts (the
      EVM's transaction semantics).
    - The confidential token [cEth] is an external contract: its answers are
      taken per transaction from a [Ledger] record, so that every theorem
      holds for every token behaviour.
    - The FHE library is external too: ciphertext handles are natural
      numbers, the all-zero handle is the uninitialised one, and the
      coprocessor is a table from handles to 64-bit plaintexts together with
      an access-control list.  The table holds the handles created in the
      transactions of the contract and is empty at deployment; every
      operation that creates a ciphertext hands out the next unused handle.
    - A call into the token is one step: the token does not call back into
      the contract while it runs. *)

From Stdlib Require Import ZArith String List Lia.
From stdpp Require Import gmap strings list fin_maps.

Open Scope Z_scope.

(** ** Basic types *)

(** [address] is a 160-bit account address, [euint64] a [bytes32] ciphertext
    handle, [externalEuint64] the handle of a user-supplied ciphertext and
    [bytes] its input proof. *)
Abbreviation address := N (only parsing).
Abbreviation euint64 := N (only parsing).
Abbreviation externalEuint64 := N (only parsing).
Abbreviation bytes := (list N) (only parsing).

Definition two64 : Z := 2 ^ 64.

(** [struct Campaign]. *)
Record Campaign := mkCampaign {
  name : string;
  targetAmount : Z;
  endTime : Z
}.

(** The three events of the contract. *)
Inductive Event :=
| CampaignUpdated (name : string) (targetAmount endTime : Z)
| ContributionReceived (contributor : address) (encryptedAmount : euint64) (timestamp : Z)
| CampaignClosed (fundraiser : address) (encryptedAmount : euint64) (timestamp : Z).

(** The state-changing calls the contract makes into the token. *)
Inductive LedgerCall :=
| TransferFrom (from to : address) (transferred : euint64)
| Transfer (to : address) (amount : euint64).

(** Revert reasons, one constructor per [require] string of the source:
    - [Only_fundraiser]: "Only fundraiser" (the spec's Unauthorized);
    - [Token_required]: "Token required";
    - [Campaign_closed]: "Campaign closed" (the spec's CampaignClosed);
    - [Already_closed]: "Already closed" (the spec's AlreadyClosed);
    - [Name_required]: "Name required" (InvalidName);
    - [Target_required]: "Target required" (InvalidTarget);
    - [End_time_must_be_in_future]: "End time must be in future" (InvalidEndTime);
    - [Past_end_time]: "Past end time" (PastEndTime);
    - [Operator_missing]: "Operator missing" (OperatorMissing);
    - [Transfer_rejected]: a revert propagated from the token (TransferRejected). *)
Inductive Error :=
| Only_fundraiser
| Token_required
| Campaign_closed
| Already_closed
| Name_required
| Target_required
| End_time_must_be_in_future
| Past_end_time
| Operator_missing
| Transfer_rejected.

Definition reason (e : Error) : string :=
  match e with
  | Only_fundraiser => "Only fundraiser"
  | Token_required => "Token required"
  | Campaign_closed => "Campaign closed"
  | Already_closed => "Already closed"
  | Name_required => "Name required"
  | Target_required => "Target required"
  | End_time_must_be_in_future => "End time must be in future"
  | Past_end_time => "Past end time"
  | Operator_missing => "Operator missing"
  | Transfer_rejected => "Transfer rejected"
  end.

(** ** The FHE coprocessor *)

(** The plaintext behind every handle, the persistent access grants
    (handle, principal) and the next unused handle. *)
Record FHEState := mkFHE {
  plaintext : gmap N Z;
  acl : gset (N * N);
  counter : N
}.

Definition fhe_init : FHEState :=
  {| plaintext := ∅; acl := ∅; counter := 1%N |}.

(** The plaintext a handle stands for; a handle without an entry reads 0. *)
Definition reveal (f : FHEState) (h : euint64) : Z :=
  default 0 (plaintext f !! h).

Definition allowed (f : FHEState) (h : euint64) (who : address) : bool :=
  bool_decide ((h, who) ∈ acl f).

(** The coprocessor after handing out the next handle for the plaintext [v],
    and after recording a grant. *)
Definition minted (v : Z) (f : FHEState) : FHEState :=
  {| plaintext := <[counter f := v]> (plaintext f);
     acl := acl f;
     counter := N.succ (counter f) |}.

Definition granted (h : euint64) (who : address) (f : FHEState) : FHEState :=
  {| plaintext := plaintext f;
     acl := {[ (h, who) ]} ∪ acl f;
     counter := counter f |}.

(** Modelled from the spec: the decryption capability of the EncryptedValue
    service, which is not part of the sources.  It reveals the plaintext to a
    principal holding a grant and fails otherwise (AccessDenied). *)
Definition decrypt (f : FHEState) (h : euint64) (who : address) : option Z :=
  if allowed f h who then plaintext f !! h else None.

(** ** Contract state *)

(** The immutables ([cEth], [fundraiser]), the contract's own address, its
    storage, and the parts of the chain state it acts on: the coprocessor,
    the event log and the calls made into the token. *)
Record World := mkWorld {
  self : address;
  cEth : address;
  fundraiser : address;
  _campaign : Campaign;
  _totalRaised : euint64;
  isClosed : bool;
  lastContributionAt : Z;
  _contributions : gmap N N;
  fhe : FHEState;
  events : list Event;
  calls : list LedgerCall
}.

Definition set_campaign (c : Campaign) (w : World) : World :=
  mkWorld (self w) (cEth w) (fundraiser w) c (_totalRaised w) (isClosed w)
          (lastContributionAt w) (_contributions w) (fhe w) (events w) (calls w).

Definition set_totalRaised (h : euint64) (w : World) : World :=
  mkWorld (self w) (cEth w) (fundraiser w) (_campaign w) h (isClosed w)
          (lastContributionAt w) (_contributions w) (fhe w) (events w) (calls w).

Definition set_isClosed (b : bool) (w : World) : World :=
  mkWorld (self w) (cEth w) (fundraiser w) (_campaign w) (_totalRaised w) b
          (lastContributionAt w) (_contributions w) (fhe w) (events w) (calls w).

Definition set_lastContributionAt (t : Z) (w : World) : World :=
  mkWorld (self w) (cEth w) (fundraiser w) (_campaign w) (_totalRaised w) (isClosed w)
          t (_contributions w) (fhe w) (events w) (calls w).

Definition set_contribution (k : address) (h : euint64) (w : World) : World :=
  mkWorld (self w) (cEth w) (fundraiser w) (_campaign w) (_totalRaised w) (isClosed w)
          (lastContributionAt w) (<[k := h]> (_contributions w)) (fhe w) (events w) (calls w).

Definition set_fhe (f : FHEState) (w : World) : World :=
  mkWorld (self w) (cEth w) (fundraiser w) (_campaign w) (_totalRaised w) (isClosed w)
          (lastContributionAt w) (_contributions w) f (events w) (calls w).

Definition add_event (ev : Event) (w : World) : World :=
  mkWorld (self w) (cEth w) (fundraiser w) (_campaign w) (_totalRaised w) (isClosed w)
          (lastContributionAt w) (_contributions w) (fhe w) (events w ++ [ev]) (calls w).

Definition add_call (c : LedgerCall) (w : World) : World :=
  mkWorld (self w) (cEth w) (fundraiser w) (_campaign w) (_totalRaised w) (isClosed w)
          (lastContributionAt w) (_contributions w) (fhe w) (events w) (calls w ++ [c]).

(** [_contributions[k]]: a Solidity mapping reads the zero handle at a key
    that was never written. *)
Definition contribution_at (w : World) (k : address) : euint64 :=
  default 0%N (_contributions w !! k).

(** ** The token and the transaction context *)

(** The answers of the token to the three calls the contract makes, as seen
    from the contract: [isOperator holder spender]; [confidentialTransferFrom
    from to encryptedAmount inputProof], which reverts ([None]) or moves an
    amount and returns its ciphertext (here: the plaintext behind it); and
    [confidentialTransfer to amount], which reverts ([false]) or returns. *)
Record Ledger := mkLedger {
  isOperator : address -> address -> bool;
  confidentialTransferFrom : address -> address -> externalEuint64 -> bytes -> option Z;
  confidentialTransfer : address -> euint64 -> bool
}.

(** [msg.sender], [block.timestamp] and the token as it answers during this
    transaction. *)
Record Env := mkEnv {
  msg_sender : address;
  block_timestamp : Z;
  token : Ledger
}.

(** ** The state-and-revert monad *)

Inductive result (A : Type) :=
| Ok (a : A)
| Revert (e : Error).
Arguments Ok {A} a.
Arguments Revert {A} e.

(** A computation returns a value or reverts, together with the state it
    reached; the state reached by a reverting computation is the one at the
    failing statement, before the transaction is rolled back. *)
Definition M (A : Type) : Type := World -> result A * World.

#[global] Instance M_ret : MRet M := fun A a w => (Ok a, w).

#[global] Instance M_bind : MBind M := fun A B f m w =>
  match m w with
  | (Ok a, w') => f a w'
  | (Revert e, w') => (Revert e, w')
  end.

Definition load {A} (field : World -> A) : M A := fun w => (Ok (field w), w).
Definition store (upd : World -> World) : M unit := fun w => (Ok tt, upd w).
Definition revert {A} (e : Error) : M A := fun w => (Revert e, w).
Definition require (cond : bool) (e : Error) : M unit :=
  if cond then mret tt else revert e.
Definition emit (ev : Event) : M unit := store (add_event ev).

(** An external call into the contract: a revert discards every effect of
    the body. *)
Definition transact {A} (body : M A) (w : World) : result A * World :=
  match body w with
  | (Ok a, w') => (Ok a, w')
  | (Revert e, _) => (Revert e, w)
  end.

(** ** The FHE library *)

Module FHE.

(** [FHE.isInitialized]: the handle is not the zero handle. *)
Definition isInitialized (h : euint64) : bool := negb (h =? 0)%N.

(** A new handle for the plaintext [v]. *)
Definition mint (v : Z) : M euint64 := fun w =>
  (Ok (counter (fhe w)), set_fhe (minted v (fhe w)) w).

(** Modelled from the spec: [FHE.asEuint64], the trivial encryption of a
    plaintext (the EncryptedValue service's freshZero at 0); the library
    is not part of the sources. *)
Definition asEuint64 (v : Z) : M euint64 := mint (v mod two64).

(** Modelled from the spec: [FHE.add] on [euint64], the homomorphic
    addition of the EncryptedValue service.  As in the library, an
    uninitialised operand is first replaced by a trivial encryption of 0,
    and the sum is taken in 64-bit arithmetic. *)
Definition add (a b : euint64) : M euint64 :=
  a ← (if isInitialized a then mret a else asEuint64 0);
  b ← (if isInitialized b then mret b else asEuint64 0);
  f ← load fhe;
  mint ((reveal f a + reveal f b) mod two64).

(** Modelled from the spec: [FHE.allow], the additive, idempotent grant of
    decrypt-access on a handle to a principal. *)
Definition allow (h : euint64) (who : address) : M unit := fun w =>
  (Ok tt, set_fhe (granted h who (fhe w)) w).

(** [FHE.allowThis h] is [FHE.allow h address(this)]. *)
Definition allowThis (h : euint64) : M unit :=
  this ← load self;
  allow h this.

End FHE.

(** ** Calls into the token *)

(** [cEth.isOperator(holder, spender)], a view call. *)
Definition cEth_isOperator (e : Env) (holder spender : address) : M bool :=
  mret (isOperator (token e) holder spender).

(** [cEth.confidentialTransferFrom(from, to, encryptedAmount, inputProof)]:
    a revert of the token propagates; otherwise the token returns the
    ciphertext of the amount it moved. *)
Definition cEth_confidentialTransferFrom (e : Env) (from to : address)
    (encryptedAmount : externalEuint64) (inputProof : bytes) : M euint64 :=
  match confidentialTransferFrom (token e) from to encryptedAmount inputProof with
  | None => revert Transfer_rejected
  | Some moved =>
      transferred ← FHE.mint moved;
      store (add_call (TransferFrom from to transferred));;
      mret transferred
  end.

(** [cEth.confidentialTransfer(to, amount)]. *)
Definition cEth_confidentialTransfer (e : Env) (to : address) (amount : euint64) : M unit :=
  if confidentialTransfer (token e) to amount
  then store (add_call (Transfer to amount))
  else revert Transfer_rejected.

(** ** The contract *)

(** [modifier onlyFundraiser]. *)
Definition onlyFundraiser (e : Env) : M unit :=
  owner ← load fundraiser;
  require (bool_decide (msg_sender e = owner)) Only_fundraiser.

Definition _setCampaign (e : Env) (name : string) (targetAmount endTime : Z) : M unit :=
  closed ← load isClosed;
  require (negb closed) Campaign_closed;;
  require (0 <? String.length name)%nat Name_required;;
  require (0 <? targetAmount) Target_required;;
  require (block_timestamp e <? endTime) End_time_must_be_in_future;;
  store (set_campaign {| name := name; targetAmount := targetAmount; endTime := endTime |});;
  emit (CampaignUpdated name targetAmount endTime).

(** The constructor runs on the blank storage of the deployed address. *)
Definition blank (this : address) : World :=
  {| self := this; cEth := 0%N; fundraiser := 0%N;
     _campaign := {| name := ""; targetAmount := 0; endTime := 0 |};
     _totalRaised := 0%N; isClosed := false; lastContributionAt := 0;
     _contributions := ∅; fhe := fhe_init; events := []; calls := [] |}.

Definition set_immutables (owner tokenAddress : address) (w : World) : World :=
  mkWorld (self w) tokenAddress owner (_campaign w) (_totalRaised w) (isClosed w)
          (lastContributionAt w) (_contributions w) (fhe w) (events w) (calls w).

Definition constructor_body (e : Env) (tokenAddress : address) (name : string)
    (targetAmount endTime : Z) : M unit :=
  require (negb (tokenAddress =? 0)%N) Token_required;;
  store (set_immutables (msg_sender e) tokenAddress);;
  _setCampaign e name targetAmount endTime.

(** Deployment at address [this]: a reverting constructor deploys nothing. *)
Definition constructor (this : address) (e : Env) (tokenAddress : address)
    (name : string) (targetAmount endTime : Z) : result World :=
  match constructor_body e tokenAddress name targetAmount endTime (blank this) with
  | (Ok _, w) => Ok w
  | (Revert err, _) => Revert err
  end.

Definition configureCampaign_body (e : Env) (name : string) (targetAmount endTime : Z) : M unit :=
  onlyFundraiser e;;
  _setCampaign e name targetAmount endTime.

Definition contribute_body (e : Env) (encryptedAmount : externalEuint64)
    (inputProof : bytes) : M euint64 :=
  closed ← load isClosed;
  require (negb closed) Campaign_closed;;
  campaign ← load _campaign;
  require (block_timestamp e <=? endTime campaign) Past_end_time;;
  this ← load self;
  operator ← cEth_isOperator e (msg_sender e) this;
  require operator Operator_missing;;

  transferred ← cEth_confidentialTransferFrom e (msg_sender e) this encryptedAmount inputProof;

  previous ← load (fun w => contribution_at w (msg_sender e));
  newContribution ← FHE.add previous transferred;
  FHE.allowThis newContribution;;
  FHE.allow newContribution (msg_sender e);;
  owner ← load fundraiser;
  FHE.allow newContribution owner;;
  store (set_contribution (msg_sender e) newContribution);;

  total ← load _totalRaised;
  updatedTotal ← FHE.add total transferred;
  FHE.allowThis updatedTotal;;
  FHE.allow updatedTotal owner;;
  FHE.allow updatedTotal (msg_sender e);;
  store (set_totalRaised updatedTotal);;

  store (set_lastContributionAt (block_timestamp e));;

  emit (ContributionReceived (msg_sender e) transferred (block_timestamp e));;
  mret newContribution.

Definition closeCampaign_body (e : Env) : M unit :=
  onlyFundraiser e;;
  closed ← load isClosed;
  require (negb closed) Already_closed;;
  store (set_isClosed true);;

  total ← load _totalRaised;
  payout ← (if FHE.isInitialized total then mret total
            else (zero ← FHE.asEuint64 0; FHE.allowThis zero;; mret zero));

  owner ← load fundraiser;
  cEth_confidentialTransfer e owner payout;;
  emit (CampaignClosed owner payout (block_timestamp e)).

(** The external entry points. *)
Definition configureCampaign (e : Env) (name : string) (targetAmount endTime : Z)
  : World -> result unit * World :=
  transact (configureCampaign_body e name targetAmount endTime).

Definition contribute (e : Env) (encryptedAmount : externalEuint64) (inputProof : bytes)
  : World -> result N * World :=
  transact (contribute_body e encryptedAmount inputProof).

Definition closeCampaign (e : Env) : World -> result unit * World :=
  transact (closeCampaign_body e).

(** The view functions. *)
Definition getCampaign (w : World) : string * Z * Z * bool :=
  let campaign := _campaign w in
  (name campaign, targetAmount campaign, endTime campaign, isClosed w).

Definition timeRemaining (e : Env) (w : World) : Z :=
  if endTime (_campaign w) <=? block_timestamp e then 0
  else (endTime (_campaign w) - block_timestamp e) mod two64.

Definition totalRaised (w : World) : euint64 := _totalRaised w.

Definition contributionOf (w : World) (contributor : address) : euint64 :=
  contribution_at w contributor.

(** ** Transactions and traces *)

Inductive Call :=
| ConfigureCampaign (name : string) (targetAmount endTime : Z)
| Contribute (encryptedAmount : externalEuint64) (inputProof : bytes)
| CloseCampaign.

Definition Tx : Type := Env * Call.

(** The outcome of a transaction, without the value it returns. *)
Definition outcome {A} (r : result A * World) : result unit :=
  match fst r with
  | Ok _ => Ok tt
  | Revert e => Revert e
  end.

Definition execute (tx : Tx) (w : World) : result unit * World :=
  match snd tx with
  | ConfigureCampaign n t d =>
      let r := configureCampaign (fst tx) n t d w in (outcome r, snd r)
  | Contribute a p =>
      let r := contribute (fst tx) a p w in (outcome r, snd r)
  | CloseCampaign =>
      let r := closeCampaign (fst tx) w in (outcome r, snd r)
  end.

Definition step (w : World) (tx : Tx) : World := snd (execute tx w).

Definition run (w : World) (txs : list Tx) : World := fold_left step txs w.

(** The contribution a transaction records: the contributor and the amount
    the token moved, when the transaction is a [contribute] that went
    through. *)
Definition recorded (w : World) (tx : Tx) : list (N * Z) :=
  match snd tx, fst (execute tx w) with
  | Contribute a p, Ok _ =>
      match confidentialTransferFrom (token (fst tx)) (msg_sender (fst tx)) (self w) a p with
      | Some moved => [(msg_sender (fst tx), moved)]
      | None => []
      end
  | _, _ => []
  end.

(** The accepted contributions of a trace, oldest first. *)
Fixpoint accepted (w : World) (txs : list Tx) : list (N * Z) :=
  match txs with
  | [] => []
  | tx :: rest => recorded w tx ++ accepted (step w tx) rest
  end.

(** The amounts contributed by one contributor, and their plain sum. *)
Definition amounts_of (c : address) (l : list (N * Z)) : list Z :=
  map snd (filter (fun p => fst p = c) l).

Definition amounts (l : list (N * Z)) : list Z := map snd l.

Definition sum (l : list Z) : Z := fold_right Z.add 0 l.

(** ** Vocabulary of the properties *)

(** The inputs [_setCampaign] accepts at time [now]. *)
Definition valid_campaign (now : Z) (n : string) (t d : Z) : bool :=
  (0 <? String.length n)%nat && (0 <? t) && (now <? d).

Definition configured (n : string) (t d : Z) (w : World) : World :=
  add_event (CampaignUpdated n t d)
    (set_campaign {| name := n; targetAmount := t; endTime := d |} w).

(** A name for the second half of [contribute_body]: the statements from
    the first [FHE.add] on, run after the token has moved the amount
    ([contribute_body_eq] relates the two). *)
Definition bookkeeping (e : Env) (transferred : euint64) : M euint64 :=
  previous ← load (fun w => contribution_at w (msg_sender e));
  newContribution ← FHE.add previous transferred;
  FHE.allowThis newContribution;;
  FHE.allow newContribution (msg_sender e);;
  owner ← load fundraiser;
  FHE.allow newContribution owner;;
  store (set_contribution (msg_sender e) newContribution);;
  total ← load _totalRaised;
  updatedTotal ← FHE.add total transferred;
  FHE.allowThis updatedTotal;;
  FHE.allow updatedTotal owner;;
  FHE.allow updatedTotal (msg_sender e);;
  store (set_totalRaised updatedTotal);;
  store (set_lastContributionAt (block_timestamp e));;
  emit (ContributionReceived (msg_sender e) transferred (block_timestamp e));;
  mret newContribution.

(** The state in which the bookkeeping starts: the token has returned the
    ciphertext of the moved amount. *)
Definition moved_in (e : Env) (moved : Z) (w : World) : World :=
  add_call (TransferFrom (msg_sender e) (self w) (counter (fhe w)))
    (set_fhe (minted moved (fhe w)) w).

(** Handles are handed out in order from 1; every handle in use is below
    the counter. *)
Record fhe_wf (f : FHEState) : Prop := {
  wf_counter : (1 <= counter f)%N;
  wf_plain : forall h v, plaintext f !! h = Some v -> (1 <= h < counter f)%N;
  wf_acl : forall h who, (h, who) ∈ acl f -> (1 <= h < counter f)%N
}.

(** [f'] extends [f]: the handles of [f] keep their plaintext and grants. *)
Record fhe_le (f f' : FHEState) : Prop := {
  le_counter : (counter f <= counter f')%N;
  le_plain : forall h, (h < counter f)%N -> plaintext f' !! h = plaintext f !! h;
  le_acl : forall h who, (h < counter f)%N -> (h, who) ∈ acl f' <-> (h, who) ∈ acl f
}.

(** The three grants [contribute] records on a new handle. *)
Definition granted3 (h : euint64) (a b c : address) (f : FHEState) : FHEState :=
  granted h c (granted h b (granted h a f)).

(** The ciphertext [closeCampaign] pays out and the state in which the token
    is called: the stored total, or a new ciphertext of zero that the
    contract may use. *)
Definition payout_of (w : World) : euint64 :=
  if FHE.isInitialized (_totalRaised w) then _totalRaised w else counter (fhe w).

Definition closing (w : World) : World :=
  if FHE.isInitialized (_totalRaised w) then set_isClosed true w
  else set_fhe (granted (counter (fhe w)) (self w) (minted (0 mod two64) (fhe w)))
         (set_isClosed true w).

Definition closed_world (e : Env) (w : World) : World :=
  add_event (CampaignClosed (fundraiser w) (payout_of w) (block_timestamp e))
    (add_call (Transfer (fundraiser w) (payout_of w)) (closing w)).

(** The guards of [contribute] pass and the token moves [moved]. *)
Definition accepts (e : Env) (a : externalEuint64) (p : bytes) (w : World) (moved : Z) : Prop :=
  isClosed w = false
  /\ block_timestamp e <= endTime (_campaign w)
  /\ isOperator (token e) (msg_sender e) (self w) = true
  /\ confidentialTransferFrom (token e) (msg_sender e) (self w) a p = Some moved.

(** The stored handles are below the counter. *)
Definition stored_below (w : World) : Prop :=
  (forall c, (contribution_at w c < counter (fhe w))%N)
  /\ (_totalRaised w < counter (fhe w))%N.

(** The handle [h] is initialised, stands for [s] in 64-bit arithmetic, and
    the contract and the fundraiser may decrypt it. *)
Definition holds (w : World) (h : euint64) (s : Z) : Prop :=
  h <> 0%N
  /\ plaintext (fhe w) !! h = Some (s mod two64)
  /\ (h, self w) ∈ acl (fhe w)
  /\ (h, fundraiser w) ∈ acl (fhe w).

(** [acc] lists the contributions accepted so far. *)
Record Inv (w : World) (acc : list (N * Z)) : Prop := {
  inv_wf : fhe_wf (fhe w);
  inv_fresh : forall c, amounts_of c acc = [] -> _contributions w !! c = None;
  inv_contribution : forall c, amounts_of c acc <> [] ->
    holds w (contribution_at w c) (sum (amounts_of c acc))
    /\ (contribution_at w c, c) ∈ acl (fhe w);
  inv_total_fresh : acc = [] -> _totalRaised w = 0%N;
  inv_total : acc <> [] -> holds w (_totalRaised w) (sum (amounts acc))
}.

(** ** A concrete deployment *)

Module Demo.

Definition deployer : address := 10%N.
Definition alice : address := 11%N.
Definition bob : address := 12%N.
Definition tokenAddress : address := 77%N.
Definition this : address := 99%N.

(** A token that approves every operator, moves the amount its caller
    names and accepts every transfer. *)
Definition friendly : Ledger :=
  {| isOperator := fun _ _ => true;
     confidentialTransferFrom := fun _ _ amount _ => Some (Z.of_N amount);
     confidentialTransfer := fun _ _ => true |}.

(** A token that rejects every transfer. *)
Definition hostile : Ledger :=
  {| isOperator := fun _ _ => true;
     confidentialTransferFrom := fun _ _ _ _ => None;
     confidentialTransfer := fun _ _ => false |}.

Definition at_time (who : address) (now : Z) : Env :=
  {| msg_sender := who; block_timestamp := now; token := friendly |}.

Definition world : World :=
  match constructor this (at_time deployer 1000) tokenAddress "Relief Pool" 5000000 4600 with
  | Ok w => w
  | Revert _ => blank this
  end.

End Demo.

(** A closed campaign: the demo campaign after its fundraiser closed it. *)
Definition closed_demo : World :=
  run Demo.world [(Demo.at_time Demo.deployer 3000, CloseCampaign)].

(** ** Vocabulary of the further properties *)

(** The accepted contribution of a transaction with the block time at which
    it was accepted, and the receipts of a trace, oldest first. *)
Definition receipt (w : World) (tx : Tx) : list (N * Z * Z) :=
  map (fun r => (r, block_timestamp (fst tx))) (recorded w tx).

Fixpoint receipts (w : World) (txs : list Tx) : list (N * Z * Z) :=
  match txs with
  | [] => []
  | tx :: rest => receipt w tx ++ receipts (step w tx) rest
  end.

(** The block time of the last receipt, 0 when there is none, and the
    contributor of the last receipt. *)
Definition last_stamp (rs : list (N * Z * Z)) : Z :=
  match last rs with
  | Some (_, _, ts) => ts
  | None => 0
  end.


(** The four ways a transaction can end: reverted, campaign configured,
    contribution booked, campaign closed; with the contribution it records. *)
Inductive Stepped (w : World) (tx : Tx) : World -> list (N * Z) -> Prop :=
| stepped_reverted :
    Stepped w tx w []
| stepped_configured n t d :
    snd tx = ConfigureCampaign n t d ->
    msg_sender (fst tx) = fundraiser w ->
    isClosed w = false ->
    valid_campaign (block_timestamp (fst tx)) n t d = true ->
    Stepped w tx (configured n t d w) []
| stepped_contributed a p v k u f' :
    snd tx = Contribute a p ->
    accepts (fst tx) a p w v ->
    fhe_wf f' -> fhe_le (fhe w) f' ->
    (counter (fhe w) < k)%N -> (counter (fhe w) < u)%N -> k <> u ->
    plaintext f' !! counter (fhe w) = Some v ->
    plaintext f' !! k =
      Some ((reveal (fhe w) (contribution_at w (msg_sender (fst tx))) + v) mod two64) ->
    plaintext f' !! u = Some ((reveal (fhe w) (_totalRaised w) + v) mod two64) ->
    (forall who, (k, who) ∈ acl f' <->
       who = self w \/ who = msg_sender (fst tx) \/ who = fundraiser w) ->
    (forall who, (u, who) ∈ acl f' <->
       who = self w \/ who = msg_sender (fst tx) \/ who = fundraiser w) ->
    Stepped w tx
      (mkWorld (self w) (cEth w) (fundraiser w) (_campaign w) u (isClosed w)
         (block_timestamp (fst tx))
         (<[msg_sender (fst tx) := k]> (_contributions w)) f'
         (events w ++ [ContributionReceived (msg_sender (fst tx)) (counter (fhe w))
                         (block_timestamp (fst tx))])
         (calls w ++ [TransferFrom (msg_sender (fst tx)) (self w) (counter (fhe w))]))
      [(msg_sender (fst tx), v)]
| stepped_closed :
    snd tx = CloseCampaign ->
    msg_sender (fst tx) = fundraiser w ->
    isClosed w = false ->
    confidentialTransfer (token (fst tx)) (fundraiser w) (payout_of w) = true ->
    Stepped w tx (closed_world (fst tx) w) [].

(** What the event log says about contributions: the contributor, the
    plaintext behind the ciphertext of the event, and the time. *)
Definition logged (f : FHEState) (ev : Event) : option (N * Z * Z) :=
  match ev with
  | ContributionReceived c h ts => Some (c, reveal f h, ts)
  | _ => None
  end.

Definition contribution_log (w : World) : list (N * Z * Z) :=
  omap (logged (fhe w)) (events w).

(** The ciphertexts carried by the events are below the counter. *)
Definition event_below (f : FHEState) (ev : Event) : Prop :=
  match ev with
  | ContributionReceived _ h _ => (h < counter f)%N
  | _ => True
  end.

(** The transfers out of the contract, and the transfers into it, among the
    calls made into the token. *)
Definition outflow (c : LedgerCall) : option (N * N) :=
  match c with
  | Transfer to h => Some (to, h)
  | TransferFrom _ _ _ => None
  end.

Definition inflow (c : LedgerCall) : option (N * N * N) :=
  match c with
  | TransferFrom from to h => Some (from, to, h)
  | Transfer _ _ => None
  end.

Definition outflows (w : World) : list (N * N) := omap outflow (calls w).
Definition inflows (w : World) : list (N * N * N) := omap inflow (calls w).

(** The block times of a trace never go back, starting from [now]. *)
Fixpoint nondecreasing (now : Z) (txs : list Tx) : Prop :=
  match txs with
  | [] => True
  | tx :: rest =>
      now <= block_timestamp (fst tx) /\ nondecreasing (block_timestamp (fst tx)) rest
  end.

(** The time of the last transaction of a trace that starts at [now]. *)
Definition end_of (now : Z) (txs : list Tx) : Z :=
  fold_left (fun _ tx => block_timestamp (fst tx)) txs now.

(** What the event log says about the configuration: the values of the
    [CampaignUpdated] events, oldest first. *)
Definition configuration (ev : Event) : option (string * Z * Z) :=
  match ev with
  | CampaignUpdated n t d => Some (n, t, d)
  | _ => None
  end.

Definition configuration_log (w : World) : list (string * Z * Z) :=
  omap configuration (events w).

(** The ciphertexts of the [ContributionReceived] events with their
    contributors, to compare the event log with the calls into the token. *)
Definition contribution_handle (ev : Event) : option (N * N) :=
  match ev with
  | ContributionReceived c h _ => Some (c, h)
  | _ => None
  end.

(** The [CampaignClosed] events: the receiver, the ciphertext and the time. *)
Definition closure (ev : Event) : option (N * N * Z) :=
  match ev with
  | CampaignClosed f h ts => Some (f, h, ts)
  | _ => None
  end.

Definition closure_log (w : World) : list (N * N * Z) := omap closure (events w).

(** ** The front end *)

(** [campaignStatus] of [FundraisingApp]: [campaign] is the answer of
    [getCampaign] and [remainingData] the answer of [timeRemaining], each
    [None] while its query has no data.  A [bigint] of zero is falsy, and
    [Number] keeps the sign of a [bigint], which is all the comparison with 0
    uses. *)
Definition campaignStatus (campaign : option (string * Z * Z * bool))
    (remainingData : option Z) : string :=
  match campaign with
  | None => "Loading..."
  | Some (_, _, _, closed) =>
      if closed then "Closed"
      else
        let remaining :=
          match remainingData with
          | Some r => if r =? 0 then 0 else r
          | None => 0
          end in
        if remaining <=? 0 then "Awaiting close" else "Active"
  end.



(** * Properties *)

(** The demo campaign is the result of a deployment. *)
Lemma Demo_deployed :
  constructor Demo.this (Demo.at_time Demo.deployer 1000) Demo.tokenAddress
    "Relief Pool" 5000000 4600 = Ok Demo.world.
Proof. reflexivity. Qed.

(** ** Unfolding the monad *)

Ltac unfold_M :=
  unfold transact, mbind, M_bind, mret, M_ret, load, store, require, revert, emit,
    cEth_isOperator in *.

Ltac run_body := unfold_M; cbn -[Nat.ltb Z.ltb Z.leb N.eqb].

(** ** [_setCampaign] and [configureCampaign] *)

(** The checks of [_setCampaign], in the order of the source. *)
Lemma setCampaign_eq e n t d w :
  _setCampaign e n t d w =
  if isClosed w then (Revert Campaign_closed, w)
  else if negb (0 <? String.length n)%nat then (Revert Name_required, w)
  else if negb (0 <? t) then (Revert Target_required, w)
  else if negb (block_timestamp e <? d) then (Revert End_time_must_be_in_future, w)
  else (Ok tt, configured n t d w).
Proof.
  unfold _setCampaign. run_body.
  destruct (isClosed w); cbn -[Nat.ltb Z.ltb]; [reflexivity|].
  destruct (0 <? String.length n)%nat; cbn -[Z.ltb]; [|reflexivity].
  destruct (0 <? t); cbn -[Z.ltb]; [|reflexivity].
  destruct (block_timestamp e <? d); reflexivity.
Qed.

(** [configureCampaign]: the modifier, then [_setCampaign]; the state of a
    reverted call is the state before it. *)
Lemma configureCampaign_eq e n t d w :
  configureCampaign e n t d w =
  if negb (bool_decide (msg_sender e = fundraiser w)) then (Revert Only_fundraiser, w)
  else if isClosed w then (Revert Campaign_closed, w)
  else if negb (0 <? String.length n)%nat then (Revert Name_required, w)
  else if negb (0 <? t) then (Revert Target_required, w)
  else if negb (block_timestamp e <? d) then (Revert End_time_must_be_in_future, w)
  else (Ok tt, configured n t d w).
Proof.
  unfold configureCampaign, configureCampaign_body, onlyFundraiser, transact.
  unfold mbind at 1. unfold M_bind at 1.
  unfold mbind at 1. unfold M_bind at 1. unfold load, require.
  destruct (bool_decide (msg_sender e = fundraiser w)); cbn -[Nat.ltb Z.ltb]; [|reflexivity].
  rewrite setCampaign_eq.
  destruct (isClosed w); cbn -[Nat.ltb Z.ltb]; [reflexivity|].
  destruct (0 <? String.length n)%nat; cbn -[Z.ltb]; [|reflexivity].
  destruct (0 <? t); cbn -[Z.ltb]; [|reflexivity].
  destruct (block_timestamp e <? d); reflexivity.
Qed.

(** ** [contribute] *)

(** The three guards of [contribute], the call into the token, and then the
    bookkeeping. *)
Lemma contribute_body_eq e a p w :
  contribute_body e a p w =
  if isClosed w then (Revert Campaign_closed, w)
  else if negb (block_timestamp e <=? endTime (_campaign w)) then (Revert Past_end_time, w)
  else if negb (isOperator (token e) (msg_sender e) (self w)) then (Revert Operator_missing, w)
  else match confidentialTransferFrom (token e) (msg_sender e) (self w) a p with
       | None => (Revert Transfer_rejected, w)
       | Some moved => bookkeeping e (counter (fhe w)) (moved_in e moved w)
       end.
Proof.
  unfold contribute_body, cEth_confidentialTransferFrom. run_body.
  destruct (isClosed w); cbn -[Z.leb]; [reflexivity|].
  destruct (block_timestamp e <=? endTime (_campaign w)); cbn; [|reflexivity].
  destruct (isOperator (token e) (msg_sender e) (self w)); cbn; [|reflexivity].
  destruct (confidentialTransferFrom (token e) (msg_sender e) (self w) a p); reflexivity.
Qed.

(** *** The coprocessor only grows *)

Lemma fhe_le_refl f : fhe_le f f.
Proof. split; [lia | reflexivity | reflexivity]. Qed.

Lemma fhe_le_trans f g h : fhe_le f g -> fhe_le g h -> fhe_le f h.
Proof.
  intros [c1 p1 a1] [c2 p2 a2]. split.
  - lia.
  - intros k Hk. rewrite p2 by lia. apply p1, Hk.
  - intros k who Hk. rewrite a2 by lia. apply a1, Hk.
Qed.

Lemma fhe_init_wf : fhe_wf fhe_init.
Proof.
  split; cbn.
  - lia.
  - intros h v H. rewrite lookup_empty in H. discriminate.
  - intros h who H. set_solver.
Qed.

Lemma reveal_zero f : fhe_wf f -> reveal f 0%N = 0.
Proof.
  intros Hwf. unfold reveal.
  destruct (plaintext f !! 0%N) as [v|] eqn:E; [|reflexivity].
  apply (wf_plain _ Hwf) in E. lia.
Qed.

Lemma reveal_le f f' h : fhe_le f f' -> (h < counter f)%N -> reveal f' h = reveal f h.
Proof. intros Hle Hh. unfold reveal. now rewrite (le_plain _ _ Hle). Qed.

Lemma minted_wf v f : fhe_wf f -> fhe_wf (minted v f).
Proof.
  intros [Hc Hp Ha]. split; cbn.
  - lia.
  - intros h x H. destruct (decide (counter f = h)) as [<-|Hne].
    + lia.
    + rewrite lookup_insert_ne in H by exact Hne. apply Hp in H. lia.
  - intros h who H. apply Ha in H. lia.
Qed.

Lemma minted_le v f : fhe_wf f -> fhe_le f (minted v f).
Proof.
  intros Hwf. split; cbn.
  - lia.
  - intros h Hh. apply lookup_insert_ne. lia.
  - reflexivity.
Qed.

Lemma minted_new v f : plaintext (minted v f) !! counter f = Some v.
Proof. cbn. apply lookup_insert_eq. Qed.

Lemma granted_wf h who f : fhe_wf f -> (1 <= h < counter f)%N -> fhe_wf (granted h who f).
Proof.
  intros [Hc Hp Ha] Hh. split; cbn; [exact Hc | exact Hp |].
  intros k x H. apply elem_of_union in H as [H|H].
  - apply elem_of_singleton in H. injection H as -> ->. exact Hh.
  - eapply Ha, H.
Qed.

(** A grant on a handle minted after [f] is invisible from [f]. *)
Lemma granted_le h who f g :
  fhe_le f g -> (counter f <= h)%N -> fhe_le f (granted h who g).
Proof.
  intros [Hc Hp Ha] Hh. split; cbn; [exact Hc | exact Hp |].
  intros k x Hk. rewrite <- (Ha k x Hk). split.
  - intros H. apply elem_of_union in H as [H|H]; [|exact H].
    apply elem_of_singleton in H. injection H as -> ->. lia.
  - intros H. apply elem_of_union. right. exact H.
Qed.

Lemma reveal_minted_new v f : reveal (minted v f) (counter f) = v.
Proof. unfold reveal. now rewrite minted_new. Qed.

(** [FHE.add] mints the 64-bit sum of the plaintexts of its operands and
    leaves every older handle and all grants as they were. *)
Lemma add_spec a b w :
  fhe_wf (fhe w) ->
  (a < counter (fhe w))%N -> (b < counter (fhe w))%N ->
  exists n f',
    FHE.add a b w = (Ok n, set_fhe f' w)
    /\ fhe_wf f' /\ fhe_le (fhe w) f' /\ acl f' = acl (fhe w)
    /\ (counter (fhe w) <= n < counter f')%N
    /\ plaintext f' !! n = Some ((reveal (fhe w) a + reveal (fhe w) b) mod two64).
Proof.
  intros Hwf Ha Hb.
  pose proof (reveal_zero _ Hwf) as Hz.
  assert (Hz0 : 0 mod two64 = 0) by reflexivity.
  unfold FHE.add, FHE.asEuint64, FHE.isInitialized, FHE.mint. run_body.
  destruct (N.eqb_spec a 0) as [->|Ea]; cbn -[N.eqb Z.modulo minted];
    (destruct (N.eqb_spec b 0) as [->|Eb]); cbn -[N.eqb Z.modulo minted].
  - set (f := fhe w) in *. set (f1 := minted (0 mod two64) f). set (f2 := minted (0 mod two64) f1).
    assert (W1 : fhe_wf f1) by (apply minted_wf, Hwf).
    assert (W2 : fhe_wf f2) by (apply minted_wf, W1).
    assert (L1 : fhe_le f f1) by (apply minted_le, Hwf).
    assert (L2 : fhe_le f1 f2) by (apply minted_le, W1).
    do 2 eexists. split; [reflexivity|].
    split; [apply minted_wf, W2|]. split; [|split; [reflexivity|split]].
    + eapply fhe_le_trans; [exact L1|]. eapply fhe_le_trans; [exact L2|]. apply minted_le, W2.
    + cbn. lia.
    + rewrite minted_new. do 2 f_equal. rewrite Hz.
      assert (R2 : reveal f2 (counter f1) = 0) by apply reveal_minted_new.
      assert (R1 : reveal f2 (counter f) = 0).
      { rewrite (reveal_le _ _ _ L2) by (cbn; lia). apply reveal_minted_new. }
      now rewrite R1, R2.
  - set (f := fhe w) in *. set (f1 := minted (0 mod two64) f).
    assert (W1 : fhe_wf f1) by (apply minted_wf, Hwf).
    assert (L1 : fhe_le f f1) by (apply minted_le, Hwf).
    do 2 eexists. split; [reflexivity|].
    split; [apply minted_wf, W1|]. split; [|split; [reflexivity|split]].
    + eapply fhe_le_trans; [exact L1|]. apply minted_le, W1.
    + cbn. lia.
    + rewrite minted_new. do 2 f_equal. rewrite Hz.
      rewrite (reveal_le _ _ _ L1 Hb). f_equal. apply reveal_minted_new.
  - set (f := fhe w) in *. set (f1 := minted (0 mod two64) f).
    assert (W1 : fhe_wf f1) by (apply minted_wf, Hwf).
    assert (L1 : fhe_le f f1) by (apply minted_le, Hwf).
    do 2 eexists. split; [reflexivity|].
    split; [apply minted_wf, W1|]. split; [|split; [reflexivity|split]].
    + eapply fhe_le_trans; [exact L1|]. apply minted_le, W1.
    + cbn. lia.
    + rewrite minted_new. do 2 f_equal. rewrite Hz.
      rewrite (reveal_le _ _ _ L1 Ha). f_equal. apply reveal_minted_new.
  - do 2 eexists. split; [reflexivity|].
    split; [apply minted_wf, Hwf|]. split; [apply minted_le, Hwf|]. split; [reflexivity|split].
    + cbn. lia.
    + rewrite minted_new. reflexivity.
Qed.

Lemma granted3_acl h a b c f k who :
  (k, who) ∈ acl (granted3 h a b c f) <->
  (k = h /\ (who = a \/ who = b \/ who = c)) \/ (k, who) ∈ acl f.
Proof.
  unfold granted3, granted; cbn.
  rewrite !elem_of_union, !elem_of_singleton.
  split.
  - intros [H|[H|[H|H]]]; try (injection H as -> ->); tauto.
  - intros [[-> [-> | [-> | ->]]] | H]; tauto.
Qed.

Lemma granted3_wf h a b c f :
  fhe_wf f -> (1 <= h < counter f)%N -> fhe_wf (granted3 h a b c f).
Proof. intros W H. unfold granted3. repeat apply granted_wf; assumption. Qed.

Lemma granted3_le h a b c f g :
  fhe_le f g -> (counter f <= h)%N -> fhe_le f (granted3 h a b c g).
Proof. intros L H. unfold granted3. repeat apply granted_le; assumption. Qed.

(** The bookkeeping on a well-formed coprocessor. *)
Lemma bookkeeping_spec e t v w :
  fhe_wf (fhe w) ->
  plaintext (fhe w) !! t = Some v ->
  (contribution_at w (msg_sender e) < counter (fhe w))%N ->
  (_totalRaised w < counter (fhe w))%N ->
  exists n u f',
    bookkeeping e t w =
      (Ok n, mkWorld (self w) (cEth w) (fundraiser w) (_campaign w) u (isClosed w)
               (block_timestamp e) (<[msg_sender e := n]> (_contributions w)) f'
               (events w ++ [ContributionReceived (msg_sender e) t (block_timestamp e)])
               (calls w))
    /\ fhe_wf f' /\ fhe_le (fhe w) f'
    /\ (counter (fhe w) <= n)%N /\ (counter (fhe w) <= u)%N /\ n <> u
    /\ plaintext f' !! n =
         Some ((reveal (fhe w) (contribution_at w (msg_sender e)) + v) mod two64)
    /\ plaintext f' !! u = Some ((reveal (fhe w) (_totalRaised w) + v) mod two64)
    /\ (forall who, (n, who) ∈ acl f' <->
          who = self w \/ who = msg_sender e \/ who = fundraiser w)
    /\ (forall who, (u, who) ∈ acl f' <->
          who = self w \/ who = msg_sender e \/ who = fundraiser w).
Proof.
  intros Hwf Ht Hp Hu.
  pose proof (wf_plain _ Hwf _ _ Ht) as Htr.
  assert (Rt : reveal (fhe w) t = v) by (unfold reveal; now rewrite Ht).
  destruct (add_spec (contribution_at w (msg_sender e)) t w Hwf Hp ltac:(lia))
    as (n & f1 & E1 & W1 & L1 & A1 & N1 & P1).
  set (f2 := granted3 n (self w) (msg_sender e) (fundraiser w) f1).
  assert (W2 : fhe_wf f2) by (apply granted3_wf; [exact W1 | lia]).
  assert (L2 : fhe_le (fhe w) f2) by (apply granted3_le; [exact L1 | lia]).
  set (w2 := set_contribution (msg_sender e) n (set_fhe f2 w)).
  destruct (add_spec (_totalRaised w) t w2 W2) as (u & f3 & E3 & W3 & L3 & A3 & N3 & P3).
  { pose proof (le_counter _ _ L2). cbn. lia. }
  { pose proof (le_counter _ _ L2). cbn. lia. }
  cbn [fhe w2 set_contribution set_fhe] in *.
  set (f4 := granted3 u (self w) (fundraiser w) (msg_sender e) f3).
  exists n, u, f4.
  split.
  { unfold bookkeeping, FHE.allowThis, FHE.allow. unfold_M.
    rewrite E1. cbn -[FHE.add].
    change (FHE.add (_totalRaised w) t _) with (FHE.add (_totalRaised w) t w2).
    rewrite E3. reflexivity. }
  assert (Hnu : (n < counter f2)%N) by (cbn; lia).
  split; [apply granted3_wf; [exact W3 | lia]|].
  split.
  { eapply fhe_le_trans; [exact L2|]. apply granted3_le; [exact L3 | lia]. }
  split; [lia|]. split; [pose proof (le_counter _ _ L2); lia|]. split; [lia|].
  split.
  { cbn. rewrite (le_plain _ _ L3) by exact Hnu. cbn. rewrite P1, Rt. reflexivity. }
  split.
  { cbn. rewrite P3. rewrite !(reveal_le _ _ _ L2) by lia. now rewrite Rt. }
  assert (Fresh : forall k who, (counter (fhe w) <= k)%N -> (k, who) ∉ acl (fhe w)).
  { intros k who Hk Hin. apply (wf_acl _ Hwf) in Hin. lia. }
  split; intros who; unfold f4; rewrite granted3_acl, A3; unfold f2;
    rewrite granted3_acl, A1.
  - split.
    + intros [[-> _]|[[_ H]|H]]; [lia | tauto | exfalso; eapply Fresh; [|exact H]; lia].
    + intros H. right. left. tauto.
  - split.
    + intros [[_ H]|[[-> _]|H]]; [tauto | lia |].
      exfalso; eapply Fresh; [|exact H]. pose proof (le_counter _ _ L2). lia.
    + intros H. left. tauto.
Qed.

(** ** [closeCampaign] *)

(** The body of [closeCampaign]: when the token rejects the transfer, the
    body has already written the flag. *)
Lemma closeCampaign_body_eq e w :
  closeCampaign_body e w =
  if negb (bool_decide (msg_sender e = fundraiser w)) then (Revert Only_fundraiser, w)
  else if isClosed w then (Revert Already_closed, w)
  else if confidentialTransfer (token e) (fundraiser w) (payout_of w)
       then (Ok tt, closed_world e w)
       else (Revert Transfer_rejected, closing w).
Proof.
  unfold closeCampaign_body, onlyFundraiser, cEth_confidentialTransfer, closed_world,
    closing, payout_of, FHE.asEuint64, FHE.allowThis, FHE.allow, FHE.mint.
  run_body.
  destruct (bool_decide (msg_sender e = fundraiser w)); cbn -[N.eqb Z.modulo]; [|reflexivity].
  destruct (isClosed w); cbn -[N.eqb Z.modulo]; [reflexivity|].
  destruct (FHE.isInitialized (_totalRaised w)); cbn -[N.eqb Z.modulo].
  - destruct (confidentialTransfer (token e) (fundraiser w) (_totalRaised w)); reflexivity.
  - destruct (confidentialTransfer (token e) (fundraiser w) (counter (fhe w))); reflexivity.
Qed.

(** The transaction: a rejected transfer leaves the state as it was. *)
Lemma closeCampaign_eq e w :
  closeCampaign e w =
  if negb (bool_decide (msg_sender e = fundraiser w)) then (Revert Only_fundraiser, w)
  else if isClosed w then (Revert Already_closed, w)
  else if confidentialTransfer (token e) (fundraiser w) (payout_of w)
       then (Ok tt, closed_world e w)
       else (Revert Transfer_rejected, w).
Proof.
  unfold closeCampaign, transact. rewrite closeCampaign_body_eq.
  destruct (bool_decide (msg_sender e = fundraiser w)); cbn; [|reflexivity].
  destruct (isClosed w); [reflexivity|].
  destruct (confidentialTransfer (token e) (fundraiser w) (payout_of w)); reflexivity.
Qed.

(** ** Transactions are atomic *)

Lemma transact_revert {A} (body : M A) w err w' :
  transact body w = (Revert err, w') -> w' = w.
Proof.
  unfold transact. destruct (body w) as [[a|e0] w0]; intros H; inversion H; reflexivity.
Qed.

Lemma execute_revert tx w err w' : execute tx w = (Revert err, w') -> w' = w.
Proof.
  destruct tx as [e c]. unfold execute, configureCampaign, contribute, closeCampaign; cbn.
  destruct c; intros H.
  - destruct (transact _ w) as [[a|e0] w0] eqn:E; cbn in H; inversion H; subst.
    eapply transact_revert, E.
  - destruct (transact _ w) as [[a|e0] w0] eqn:E; cbn in H; inversion H; subst.
    eapply transact_revert, E.
  - destruct (transact _ w) as [[a|e0] w0] eqn:E; cbn in H; inversion H; subst.
    eapply transact_revert, E.
Qed.

(** *** An accepted contribution *)

(** What an accepted contribution writes: the new contribution of the caller
    and the new total are new handles for the 64-bit sums, each with the
    three grants, and everything older is kept. *)
Lemma contribute_ok e a p w v :
  fhe_wf (fhe w) -> stored_below w -> accepts e a p w v ->
  exists n u f',
    contribute e a p w =
      (Ok n, mkWorld (self w) (cEth w) (fundraiser w) (_campaign w) u (isClosed w)
               (block_timestamp e) (<[msg_sender e := n]> (_contributions w)) f'
               (events w ++ [ContributionReceived (msg_sender e) (counter (fhe w))
                               (block_timestamp e)])
               (calls w ++ [TransferFrom (msg_sender e) (self w) (counter (fhe w))]))
    /\ fhe_wf f' /\ fhe_le (fhe w) f'
    /\ (counter (fhe w) < n)%N /\ (counter (fhe w) < u)%N /\ n <> u
    /\ plaintext f' !! counter (fhe w) = Some v
    /\ plaintext f' !! n =
         Some ((reveal (fhe w) (contribution_at w (msg_sender e)) + v) mod two64)
    /\ plaintext f' !! u = Some ((reveal (fhe w) (_totalRaised w) + v) mod two64)
    /\ (forall who, (n, who) ∈ acl f' <->
          who = self w \/ who = msg_sender e \/ who = fundraiser w)
    /\ (forall who, (u, who) ∈ acl f' <->
          who = self w \/ who = msg_sender e \/ who = fundraiser w).
Proof.
  intros Hwf [Hp Hu] (Hc & Ht & Ho & Hm).
  set (w1 := moved_in e v w).
  assert (W1 : fhe_wf (fhe w1)) by (apply minted_wf, Hwf).
  assert (L1 : fhe_le (fhe w) (fhe w1)) by (apply minted_le, Hwf).
  destruct (bookkeeping_spec e (counter (fhe w)) v w1 W1) as
    (n & u & f' & E & W & L & Hn & Hu' & Hnu & Pn & Pu & An & Au).
  { apply minted_new. }
  { cbn. specialize (Hp (msg_sender e)). unfold contribution_at in *. cbn. lia. }
  { cbn. lia. }
  exists n, u, f'.
  split.
  { unfold contribute, transact. rewrite contribute_body_eq, Hc, Ho, Hm.
    apply Z.leb_le in Ht. rewrite Ht. cbn [negb].
    fold w1. rewrite E. cbn. rewrite Hc. reflexivity. }
  cbn in Hn, Hu'.
  split; [exact W|]. split; [eapply fhe_le_trans; eassumption|].
  split; [lia|]. split; [lia|]. split; [exact Hnu|].
  split.
  { rewrite (le_plain _ _ L) by (cbn; lia). apply minted_new. }
  split.
  { rewrite Pn. change (contribution_at w1 (msg_sender e)) with (contribution_at w (msg_sender e)).
    rewrite (reveal_le _ _ _ L1) by apply Hp. reflexivity. }
  split.
  { rewrite Pu. change (_totalRaised w1) with (_totalRaised w).
    rewrite (reveal_le _ _ _ L1) by apply Hu. reflexivity. }
  split; assumption.
Qed.

Lemma set_fhe_set_fhe f g w : set_fhe f (set_fhe g w) = set_fhe f w.
Proof. reflexivity. Qed.

Lemma add_shape a b w : exists n f, FHE.add a b w = (Ok n, set_fhe f w).
Proof.
  unfold FHE.add, FHE.asEuint64, FHE.mint. unfold_M.
  destruct (FHE.isInitialized a), (FHE.isInitialized b); cbn -[set_fhe minted];
    rewrite ?set_fhe_set_fhe; do 2 eexists; reflexivity.
Qed.

(** Without any assumption on the state, the bookkeeping returns and writes
    only the contribution of the caller, the total, [lastContributionAt],
    the coprocessor and the event log. *)
Lemma bookkeeping_shape e t w :
  exists n u f',
    bookkeeping e t w =
      (Ok n, mkWorld (self w) (cEth w) (fundraiser w) (_campaign w) u (isClosed w)
               (block_timestamp e) (<[msg_sender e := n]> (_contributions w)) f'
               (events w ++ [ContributionReceived (msg_sender e) t (block_timestamp e)])
               (calls w)).
Proof.
  destruct (add_shape (contribution_at w (msg_sender e)) t w) as (n & f1 & E1).
  set (f2 := granted3 n (self w) (msg_sender e) (fundraiser w) f1).
  set (w2 := set_contribution (msg_sender e) n (set_fhe f2 w)).
  destruct (add_shape (_totalRaised w) t w2) as (u & f3 & E3).
  exists n, u, (granted3 u (self w) (fundraiser w) (msg_sender e) f3).
  unfold bookkeeping, FHE.allowThis, FHE.allow. unfold_M.
  rewrite E1. cbn -[FHE.add].
  change (FHE.add (_totalRaised w) t _) with (FHE.add (_totalRaised w) t w2).
  rewrite E3. reflexivity.
Qed.

Lemma bookkeeping_returns e t w : exists n w', bookkeeping e t w = (Ok n, w').
Proof. destruct (bookkeeping_shape e t w) as (n & u & f' & ->). eauto. Qed.

(** [contribute] goes through exactly when its guards pass and the token
    moves an amount. *)
Lemma contribute_Ok_inv e a p w n w' :
  contribute e a p w = (Ok n, w') -> exists v, accepts e a p w v.
Proof.
  unfold contribute, transact, accepts. rewrite contribute_body_eq.
  destruct (isClosed w); [discriminate|].
  destruct (Z.leb_spec (block_timestamp e) (endTime (_campaign w))); [|discriminate].
  destruct (isOperator (token e) (msg_sender e) (self w)); [|discriminate].
  destruct (confidentialTransferFrom (token e) (msg_sender e) (self w) a p) as [v|];
    [|discriminate].
  intros _. exists v. auto.
Qed.

Lemma contribute_accepts e a p w v :
  accepts e a p w v -> exists n w', contribute e a p w = (Ok n, w').
Proof.
  intros (Hc & Ht & Ho & Hm). unfold contribute, transact.
  rewrite contribute_body_eq, Hc, Ho, Hm. apply Z.leb_le in Ht. rewrite Ht. cbn [negb].
  destruct (bookkeeping_returns e (counter (fhe w)) (moved_in e v w)) as (n & w' & ->).
  eauto.
Qed.

(** ** Sums of contributions *)

Lemma sum_app l l' : sum (l ++ l') = sum l + sum l'.
Proof. unfold sum. induction l as [|x l IH]; cbn; [reflexivity | rewrite IH; lia]. Qed.

Lemma amounts_app l l' : amounts (l ++ l') = amounts l ++ amounts l'.
Proof. apply map_app. Qed.

Lemma amounts_of_app c l l' : amounts_of c (l ++ l') = amounts_of c l ++ amounts_of c l'.
Proof. unfold amounts_of. now rewrite filter_app, map_app. Qed.

Lemma amounts_of_one_eq c v : amounts_of c [(c, v)] = [v].
Proof.
  unfold amounts_of. rewrite filter_cons_True by reflexivity. reflexivity.
Qed.

Lemma amounts_of_one_ne c s v : s <> c -> amounts_of c [(s, v)] = [].
Proof.
  intros H. unfold amounts_of. rewrite filter_cons_False by exact H. reflexivity.
Qed.

Lemma sum_one v : sum [v] = v.
Proof. cbn. lia. Qed.

(** ** The invariant of the ledger of contributions *)

Lemma holds_below w h s : fhe_wf (fhe w) -> holds w h s -> (h < counter (fhe w))%N.
Proof. intros Hwf (_ & Hp & _). apply (wf_plain _ Hwf) in Hp. lia. Qed.

Lemma Inv_stored_below w acc : Inv w acc -> stored_below w.
Proof.
  intros I. pose proof (wf_counter _ (inv_wf _ _ I)) as Hc. split.
  - intros c. destruct (amounts_of c acc) as [|x l] eqn:E.
    + unfold contribution_at. rewrite (inv_fresh _ _ I c E). cbn. lia.
    + eapply holds_below; [apply I|]. apply (inv_contribution _ _ I c). now rewrite E.
  - destruct acc as [|x l].
    + rewrite (inv_total_fresh _ _ I eq_refl). lia.
    + eapply holds_below; [apply I|]. now apply (inv_total _ _ I).
Qed.

(** The invariant survives every change that keeps the stored handles and
    extends the coprocessor. *)
Lemma Inv_frame w w' acc :
  Inv w acc ->
  self w' = self w -> fundraiser w' = fundraiser w ->
  _contributions w' = _contributions w -> _totalRaised w' = _totalRaised w ->
  fhe_wf (fhe w') -> fhe_le (fhe w) (fhe w') ->
  Inv w' acc.
Proof.
  intros I Es Ef Ec Et W L.
  assert (H : forall h s, holds w h s -> holds w' h s).
  { intros h s Hh. pose proof (holds_below _ _ _ (inv_wf _ _ I) Hh) as Hb.
    destruct Hh as (H0 & Hp & Hs & Hf). unfold holds. rewrite Es, Ef.
    rewrite (le_plain _ _ L) by exact Hb. rewrite !(le_acl _ _ L) by exact Hb. auto. }
  split.
  - exact W.
  - intros c E. rewrite Ec. now apply (inv_fresh _ _ I).
  - intros c E. unfold contribution_at. rewrite Ec.
    destruct (inv_contribution _ _ I c E) as [Hh Ha]. split; [now apply H|].
    rewrite (le_acl _ _ L); [exact Ha|]. eapply holds_below; [apply I | exact Hh].
  - intros E. rewrite Et. now apply (inv_total_fresh _ _ I).
  - intros E. rewrite Et. now apply H, (inv_total _ _ I).
Qed.

(** A deployment establishes the invariant. *)
Lemma Inv_init this e tok n t d w :
  constructor this e tok n t d = Ok w -> Inv w [].
Proof.
  unfold constructor, constructor_body. unfold mbind at 1; unfold M_bind at 1.
  unfold require at 1.
  destruct (negb (tok =? 0)%N); [|discriminate].
  unfold mret at 1, M_ret at 1. unfold mbind at 1; unfold M_bind at 1. unfold store at 1.
  rewrite setCampaign_eq. cbn [isClosed blank set_immutables].
  destruct (negb _); [discriminate|]. destruct (negb _); [discriminate|].
  destruct (negb _); [discriminate|].
  intros H. inversion H; subst. split; cbn.
  - exact fhe_init_wf.
  - intros c _. apply lookup_empty.
  - intros c H0. now destruct H0.
  - reflexivity.
  - intros H0. now destruct H0.
Qed.

Lemma closing_wf w : fhe_wf (fhe w) -> fhe_wf (fhe (closing w)).
Proof.
  intros W. unfold closing. destruct (FHE.isInitialized (_totalRaised w)); cbn; [exact W|].
  apply granted_wf; [apply minted_wf, W|]. pose proof (wf_counter _ W). cbn. lia.
Qed.

Lemma closing_le w : fhe_wf (fhe w) -> fhe_le (fhe w) (fhe (closing w)).
Proof.
  intros W. unfold closing. destruct (FHE.isInitialized (_totalRaised w)); cbn.
  - apply fhe_le_refl.
  - apply granted_le; [apply minted_le, W | lia].
Qed.

(** Every transaction keeps the invariant, for the accepted contributions
    extended by the one it records. *)
Lemma step_Inv w acc tx : Inv w acc -> Inv (step w tx) (acc ++ recorded w tx).
Proof.
  intros I. destruct tx as [e [n t d|a p|]]; unfold step, recorded, execute; cbn [fst snd].
  - (* configureCampaign *)
    rewrite app_nil_r. rewrite configureCampaign_eq.
    repeat (match goal with |- context [if ?b then _ else _] => destruct b end;
            cbn [snd]; try exact I).
    eapply Inv_frame; [exact I | reflexivity.. | apply I | apply fhe_le_refl].
  - (* contribute *)
    destruct (contribute e a p w) as [[k|err] w'] eqn:E; cbn [fst snd outcome].
    2:{ rewrite app_nil_r. apply transact_revert in E. now subst. }
    destruct (contribute_Ok_inv _ _ _ _ _ _ E) as [v Hacc].
    destruct (contribute_ok e a p w v (inv_wf _ _ I) (Inv_stored_below _ _ I) Hacc)
      as (k' & u & f' & E' & W & L & Hk & Hu & Hku & Pt & Pk & Pu & Ak & Au).
    rewrite E in E'. inversion E'; subst k w'. clear E'.
    destruct Hacc as (_ & _ & _ & ->).
    pose proof (wf_counter _ (inv_wf _ _ I)) as Hc.
    assert (Hold : forall h s, holds w h s ->
              h <> 0%N /\ plaintext f' !! h = Some (s mod two64)
              /\ (h, self w) ∈ acl f' /\ (h, fundraiser w) ∈ acl f').
    { intros h s Hh. pose proof (holds_below _ _ _ (inv_wf _ _ I) Hh) as Hb.
      destruct Hh as (H0 & Hp & Hs & Hf).
      rewrite (le_plain _ _ L) by exact Hb. rewrite !(le_acl _ _ L) by exact Hb. auto. }
    split; cbn [fhe self fundraiser _contributions _totalRaised].
    + exact W.
    + intros c Hc0. rewrite amounts_of_app in Hc0. apply app_eq_nil in Hc0 as [Hc1 Hc2].
      destruct (decide (msg_sender e = c)) as [<-|Hne].
      * rewrite amounts_of_one_eq in Hc2. discriminate.
      * rewrite lookup_insert_ne by exact Hne. now apply (inv_fresh _ _ I).
    + intros c Hnn. unfold contribution_at, holds.
      cbn [fhe self fundraiser _contributions _totalRaised].
      rewrite amounts_of_app.
      destruct (decide (msg_sender e = c)) as [<-|Hne].
      * rewrite lookup_insert_eq. cbn [default from_option id]. rewrite amounts_of_one_eq, sum_app, sum_one.
        split; [split; [lia|split]|]; [| split; apply Ak; auto | apply Ak; auto].
        rewrite Pk. f_equal.
        destruct (amounts_of (msg_sender e) acc) as [|x l] eqn:El.
        -- unfold contribution_at. rewrite (inv_fresh _ _ I _ El). cbn [default from_option id].
           rewrite (reveal_zero _ (inv_wf _ _ I)). reflexivity.
        -- destruct (inv_contribution _ _ I (msg_sender e)) as [(_ & Hp & _) _];
             [now rewrite El|].
           unfold reveal. rewrite Hp, El. cbn [default from_option id]. apply Zplus_mod_idemp_l.
      * rewrite lookup_insert_ne by exact Hne.
        rewrite (amounts_of_one_ne _ _ _ Hne), app_nil_r.
        destruct (amounts_of c acc) as [|x l] eqn:El.
        -- exfalso. apply Hnn.
           now rewrite amounts_of_app, El, (amounts_of_one_ne _ _ _ Hne).
        -- destruct (inv_contribution _ _ I c) as [Hh Ha]; [now rewrite El|].
           rewrite El in Hh. split; [now apply Hold|].
           rewrite (le_acl _ _ L); [exact Ha|].
           eapply holds_below; [apply I | exact Hh].
    + intros H. apply app_eq_nil in H as [_ H]. discriminate.
    + intros _. unfold holds. cbn [fhe self fundraiser _contributions _totalRaised].
      split; [lia|]. split; [|split; apply Au; auto].
      rewrite Pu, amounts_app, sum_app. change (amounts [(msg_sender e, v)]) with [v].
      rewrite sum_one. f_equal.
      destruct acc as [|x l].
      * rewrite (inv_total_fresh _ _ I eq_refl), (reveal_zero _ (inv_wf _ _ I)). reflexivity.
      * destruct (inv_total _ _ I) as (_ & Hp & _); [discriminate|].
        unfold reveal. rewrite Hp. cbn [default from_option id]. apply Zplus_mod_idemp_l.
  - (* closeCampaign *)
    rewrite app_nil_r. rewrite closeCampaign_eq.
    repeat (match goal with |- context [if ?b then _ else _] => destruct b end;
            cbn [snd]; try exact I).
    eapply Inv_frame; [exact I | .. ].
    + unfold closed_world, closing. now destruct (FHE.isInitialized _).
    + unfold closed_world, closing. now destruct (FHE.isInitialized _).
    + unfold closed_world, closing. now destruct (FHE.isInitialized _).
    + unfold closed_world, closing. now destruct (FHE.isInitialized _).
    + apply (closing_wf w), I.
    + apply (closing_le w), I.
Qed.

Lemma run_Inv txs : forall w acc, Inv w acc -> Inv (run w txs) (acc ++ accepted w txs).
Proof.
  induction txs as [|tx txs IH]; intros w acc I; cbn.
  - now rewrite app_nil_r.
  - rewrite app_assoc. apply IH, step_Inv, I.
Qed.

(** Every world reached from a deployment satisfies the invariant for the
    contributions accepted on the way. *)
Lemma reachable_Inv this e tok n t d w0 txs :
  constructor this e tok n t d = Ok w0 ->
  Inv (run w0 txs) (accepted w0 txs).
Proof. intros H. apply (run_Inv txs w0 []), (Inv_init _ _ _ _ _ _ _ H). Qed.

(** * The claims *)

(** ** C1: what the read operations return *)

(** C1, as stated, fails: on a fresh deployment [contributionOf] and
    [totalRaised] return the zero handle, which is not initialised and has no
    plaintext; nothing is minted on the read path. *)
Lemma C1_reads_return_uninitialised_handle :
  contributionOf Demo.world Demo.alice = 0%N
  /\ FHE.isInitialized (contributionOf Demo.world Demo.alice) = false
  /\ plaintext (fhe Demo.world) !! contributionOf Demo.world Demo.alice = None
  /\ totalRaised Demo.world = 0%N
  /\ FHE.isInitialized (totalRaised Demo.world) = false
  /\ plaintext (fhe Demo.world) !! totalRaised Demo.world = None.
Proof. repeat split; reflexivity. Qed.

(** C1 (amended): in every state reached from a deployment, [contributionOf]
    returns the handle stored for the contributor and [totalRaised] the
    stored total; the handle is initialised, and stands for a plaintext,
    exactly when a contribution of that contributor (for the total: any
    contribution) has been accepted, and it is the zero handle otherwise. *)
Theorem C1_reads_return_stored_handle this e tok n t d w0 txs c :
  constructor this e tok n t d = Ok w0 ->
  let w := run w0 txs in
  contributionOf w c = default 0%N (_contributions w !! c)
  /\ totalRaised w = _totalRaised w
  /\ (amounts_of c (accepted w0 txs) = [] -> contributionOf w c = 0%N)
  /\ (amounts_of c (accepted w0 txs) <> [] ->
        FHE.isInitialized (contributionOf w c) = true
        /\ is_Some (plaintext (fhe w) !! contributionOf w c))
  /\ (accepted w0 txs = [] -> totalRaised w = 0%N)
  /\ (accepted w0 txs <> [] ->
        FHE.isInitialized (totalRaised w) = true
        /\ is_Some (plaintext (fhe w) !! totalRaised w)).
Proof.
  intros H w. pose proof (reachable_Inv _ _ _ _ _ _ _ txs H) as I. fold w in I.
  assert (Hinit : forall h s, holds w h s ->
            FHE.isInitialized h = true /\ is_Some (plaintext (fhe w) !! h)).
  { intros h s (H0 & Hp & _). split; [|eauto].
    unfold FHE.isInitialized. now destruct (N.eqb_spec h 0). }
  split; [reflexivity|]. split; [reflexivity|]. split; [|split; [|split]].
  - intros E. unfold contributionOf, contribution_at.
    now rewrite (inv_fresh _ _ I c E).
  - intros E. destruct (inv_contribution _ _ I c E) as [Hh _]. eapply Hinit, Hh.
  - apply (inv_total_fresh _ _ I).
  - intros E. eapply Hinit, (inv_total _ _ I E).
Qed.

Lemma C1_reads_return_stored_handle_witness :
  let w := run Demo.world [(Demo.at_time Demo.alice 2000, Contribute 2500000%N [])] in
  contributionOf w Demo.bob = 0%N /\ FHE.isInitialized (contributionOf w Demo.alice) = true.
Proof.
  intros w.
  pose proof (C1_reads_return_stored_handle _ _ _ _ _ _ _
                [(Demo.at_time Demo.alice 2000, Contribute 2500000%N [])] Demo.bob
                Demo_deployed) as Hb.
  pose proof (C1_reads_return_stored_handle _ _ _ _ _ _ _
                [(Demo.at_time Demo.alice 2000, Contribute 2500000%N [])] Demo.alice
                Demo_deployed) as Ha.
  cbv zeta in Ha, Hb. fold w in Ha, Hb.
  destruct Hb as (_ & _ & Hb & _). destruct Ha as (_ & _ & _ & Ha & _).
  split.
  - apply Hb. vm_compute. reflexivity.
  - apply Ha. vm_compute. discriminate.
Defined.

(** ** C2: contributions accumulate *)

(** C2, as stated, fails: the sums are 64-bit.  Two accepted contributions
    of 2^63 from one contributor add up to 2^64, but both the contribution
    and the total decrypt to 0. *)
Lemma C2_sum_wraps_at_two64 :
  let txs := [(Demo.at_time Demo.alice 2000, Contribute 9223372036854775808%N []);
              (Demo.at_time Demo.alice 2100, Contribute 9223372036854775808%N [])] in
  let w := run Demo.world txs in
  accepted Demo.world txs = [(Demo.alice, 2 ^ 63); (Demo.alice, 2 ^ 63)]
  /\ sum (amounts_of Demo.alice (accepted Demo.world txs)) = 2 ^ 64
  /\ decrypt (fhe w) (contributionOf w Demo.alice) Demo.alice = Some 0
  /\ decrypt (fhe w) (contributionOf w Demo.alice) Demo.alice
       <> Some (sum (amounts_of Demo.alice (accepted Demo.world txs)))
  /\ decrypt (fhe w) (totalRaised w) (fundraiser w) = Some 0
  /\ decrypt (fhe w) (totalRaised w) (fundraiser w)
       <> Some (sum (amounts (accepted Demo.world txs))).
Proof. vm_compute. repeat split; (reflexivity || discriminate). Qed.

(** C2 (amended): after any trace from a deployment, the contribution of a
    contributor with at least one accepted contribution decrypts, for that
    contributor, to the sum of the accepted amounts modulo 2^64, and the
    total decrypts, for the fundraiser, to the sum of all accepted amounts
    modulo 2^64, whoever contributed; these are the exact sums whenever the
    sums are below 2^64. *)
Theorem C2_contributions_accumulate this e tok n t d w0 txs c :
  constructor this e tok n t d = Ok w0 ->
  let w := run w0 txs in
  let mine := amounts_of c (accepted w0 txs) in
  let all := amounts (accepted w0 txs) in
  (mine <> [] ->
     decrypt (fhe w) (contributionOf w c) c = Some (sum mine mod two64)
     /\ (0 <= sum mine < two64 ->
           decrypt (fhe w) (contributionOf w c) c = Some (sum mine)))
  /\ (accepted w0 txs <> [] ->
        decrypt (fhe w) (totalRaised w) (fundraiser w) = Some (sum all mod two64)
        /\ (0 <= sum all < two64 ->
              decrypt (fhe w) (totalRaised w) (fundraiser w) = Some (sum all))).
Proof.
  intros H w mine all. pose proof (reachable_Inv _ _ _ _ _ _ _ txs H) as I. fold w in I.
  split.
  - intros E. destruct (inv_contribution _ _ I c E) as [(_ & Hp & _) Ha].
    assert (D : decrypt (fhe w) (contributionOf w c) c = Some (sum mine mod two64)).
    { unfold decrypt, allowed, contributionOf. rewrite bool_decide_eq_true_2 by exact Ha.
      exact Hp. }
    split; [exact D|]. intros Hs. rewrite D. f_equal. now apply Z.mod_small.
  - intros E. destruct (inv_total _ _ I E) as (_ & Hp & _ & Ha).
    assert (D : decrypt (fhe w) (totalRaised w) (fundraiser w) = Some (sum all mod two64)).
    { unfold decrypt, allowed, totalRaised. rewrite bool_decide_eq_true_2 by exact Ha.
      exact Hp. }
    split; [exact D|]. intros Hs. rewrite D. f_equal. now apply Z.mod_small.
Qed.

(** The example of the specification: 2,500,000 then 750,000 from one
    contributor decrypt to 3,250,000; with 1,000 from another contributor the
    total decrypts to 3,251,000. *)
Lemma C2_contributions_accumulate_witness :
  let txs := [(Demo.at_time Demo.alice 2000, Contribute 2500000%N []);
              (Demo.at_time Demo.bob 2050, Contribute 1000%N []);
              (Demo.at_time Demo.alice 2100, Contribute 750000%N [])] in
  let w := run Demo.world txs in
  decrypt (fhe w) (contributionOf w Demo.alice) Demo.alice = Some 3250000
  /\ decrypt (fhe w) (totalRaised w) (fundraiser w) = Some 3251000.
Proof.
  intros txs w.
  destruct (C2_contributions_accumulate _ _ _ _ _ _ _ txs Demo.alice Demo_deployed)
    as [Hc Ht].
  split.
  - destruct Hc as [_ Hc]; [vm_compute; discriminate|].
    apply Hc. vm_compute. split; [discriminate | reflexivity].
  - destruct Ht as [_ Ht]; [vm_compute; discriminate|].
    apply Ht. vm_compute. split; [discriminate | reflexivity].
Defined.

(** ** C3: closing and the transfer to the fundraiser *)

(** In the body of [closeCampaign] the flag is written before the token is
    called: when the token reverts, the body stops in a state with the flag
    set, and it is the rollback of the transaction that clears it. *)
Lemma closeCampaign_body_sets_flag_first e w :
  msg_sender e = fundraiser w -> isClosed w = false ->
  confidentialTransfer (token e) (fundraiser w) (payout_of w) = false ->
  closeCampaign_body e w = (Revert Transfer_rejected, closing w)
  /\ isClosed (closing w) = true.
Proof.
  intros Hs Hc Ht. rewrite closeCampaign_body_eq, Hc, Ht.
  rewrite bool_decide_eq_true_2 by exact Hs. split; [reflexivity|].
  unfold closing. now destruct (FHE.isInitialized _).
Qed.

(** C3: when the token rejects the transfer of the payout, [closeCampaign]
    fails and leaves the state, and so the closed flag, as it was; and
    whenever [closeCampaign] turns the flag from false to true, it succeeded
    and the token accepted the transfer of the payout to the fundraiser. *)
Theorem C3_closed_only_if_transfer_succeeds e w :
  (confidentialTransfer (token e) (fundraiser w) (payout_of w) = false ->
     (exists err, closeCampaign e w = (Revert err, w))
     /\ isClosed (snd (closeCampaign e w)) = isClosed w)
  /\ (forall r w', closeCampaign e w = (r, w') ->
        isClosed w = false -> isClosed w' = true ->
        r = Ok tt
        /\ confidentialTransfer (token e) (fundraiser w) (payout_of w) = true
        /\ calls w' = calls w ++ [Transfer (fundraiser w) (payout_of w)]).
Proof.
  split.
  - intros Ht. rewrite closeCampaign_eq, Ht.
    destruct (negb _); [split; eauto|].
    destruct (isClosed w) eqn:Hc; (split; [eauto | exact Hc]).
  - intros r w' E Hc Hc'. rewrite closeCampaign_eq, Hc in E.
    destruct (negb _); [inversion E; congruence|].
    destruct (confidentialTransfer _ _ _); inversion E; subst; [|congruence].
    repeat split. unfold closed_world, closing. now destruct (FHE.isInitialized _).
Qed.

Lemma C3_closed_only_if_transfer_succeeds_witness :
  let e := {| msg_sender := Demo.deployer; block_timestamp := 3000; token := Demo.hostile |} in
  (exists err, closeCampaign e Demo.world = (Revert err, Demo.world))
  /\ isClosed (snd (closeCampaign e Demo.world)) = false.
Proof.
  intros e.
  apply (proj1 (C3_closed_only_if_transfer_succeeds e Demo.world)).
  reflexivity.
Defined.

(** ** C4: failing calls change nothing *)

(** [configureCampaign] and [contribute] validate before they write: their
    bodies revert in the state they started in. *)
Lemma configureCampaign_body_validates_first e n t d w err w' :
  configureCampaign_body e n t d w = (Revert err, w') -> w' = w.
Proof.
  pose proof (configureCampaign_eq e n t d w) as E.
  unfold configureCampaign, transact in E.
  unfold configureCampaign_body, onlyFundraiser in *.
  revert E. unfold mbind at 1 3. unfold M_bind at 1 3.
  unfold mbind at 1 2. unfold M_bind at 1 2. unfold load, require.
  destruct (bool_decide (msg_sender e = fundraiser w)); cbn -[Nat.ltb Z.ltb].
  - rewrite setCampaign_eq. intros _.
    repeat (match goal with |- context [if ?b then _ else _] => destruct b end;
            try (intros H; inversion H; reflexivity)).
  - intros _ H. inversion H. reflexivity.
Qed.

Lemma contribute_body_validates_first e a p w err w' :
  contribute_body e a p w = (Revert err, w') -> w' = w.
Proof.
  rewrite contribute_body_eq.
  destruct (isClosed w); [intros H; inversion H; reflexivity|].
  destruct (negb _); [intros H; inversion H; reflexivity|].
  destruct (negb _); [intros H; inversion H; reflexivity|].
  destruct (confidentialTransferFrom _ _ _ _ _) as [v|]; [|intros H; inversion H; reflexivity].
  destruct (bookkeeping_returns e (counter (fhe w)) (moved_in e v w)) as (k & w1 & ->).
  discriminate.
Qed.

(** C4: a failing [configureCampaign], [contribute] or [closeCampaign]
    returns the state it was called in: campaign, contributions, total,
    [lastContributionAt], closed flag, coprocessor, event log and token calls
    are all unchanged, whether the failure is a validation of the contract
    or a revert of the token.  The validations of all three precede every
    write. *)
Theorem C4_failures_change_nothing :
  (forall e n t d w err w', configureCampaign e n t d w = (Revert err, w') -> w' = w)
  /\ (forall e a p w err w', contribute e a p w = (Revert err, w') -> w' = w)
  /\ (forall e w err w', closeCampaign e w = (Revert err, w') -> w' = w)
  /\ (forall tx w err w', execute tx w = (Revert err, w') ->
        w' = w /\ events w' = events w /\ calls w' = calls w)
  /\ (forall e n t d w err w',
        configureCampaign_body e n t d w = (Revert err, w') -> w' = w)
  /\ (forall e a p w err w', contribute_body e a p w = (Revert err, w') -> w' = w)
  /\ (forall e w err w', closeCampaign_body e w = (Revert err, w') ->
        err <> Transfer_rejected -> w' = w).
Proof.
  split; [intros; eapply transact_revert; eassumption|].
  split; [intros; eapply transact_revert; eassumption|].
  split; [intros; eapply transact_revert; eassumption|].
  split.
  { intros tx w err w' H. apply execute_revert in H. subst. auto. }
  split; [apply configureCampaign_body_validates_first|].
  split; [apply contribute_body_validates_first|].
  intros e w err w' H Hne. rewrite closeCampaign_body_eq in H.
  destruct (negb _); [inversion H; reflexivity|].
  destruct (isClosed w); [inversion H; reflexivity|].
  destruct (confidentialTransfer _ _ _); inversion H; subst. congruence.
Qed.

Lemma C4_failures_change_nothing_witness :
  let e := {| msg_sender := Demo.alice; block_timestamp := 2000; token := Demo.hostile |} in
  snd (contribute e 5%N [] Demo.world) = Demo.world.
Proof.
  intros e.
  apply (proj1 (proj2 C4_failures_change_nothing) e 5%N [] Demo.world Transfer_rejected).
  reflexivity.
Defined.

(** ** C5: the guards of [contribute] *)

(** C5: [contribute] fails with "Campaign closed" when the campaign is
    closed; otherwise with "Past end time" when the block time is after the
    end time; otherwise with "Operator missing" when the token does not
    report the contract as an operator of the caller.  In all three cases the
    body stops before the token is asked to move anything, whatever the token
    would answer.  At the end time exactly, a contribution that the token
    moves is accepted. *)
Theorem C5_contribute_guards e a p w :
  (isClosed w = true ->
     contribute_body e a p w = (Revert Campaign_closed, w)
     /\ contribute e a p w = (Revert Campaign_closed, w))
  /\ (isClosed w = false -> endTime (_campaign w) < block_timestamp e ->
        contribute_body e a p w = (Revert Past_end_time, w)
        /\ contribute e a p w = (Revert Past_end_time, w))
  /\ (isClosed w = false -> block_timestamp e <= endTime (_campaign w) ->
      isOperator (token e) (msg_sender e) (self w) = false ->
        contribute_body e a p w = (Revert Operator_missing, w)
        /\ contribute e a p w = (Revert Operator_missing, w))
  /\ (isClosed w = false -> block_timestamp e = endTime (_campaign w) ->
      isOperator (token e) (msg_sender e) (self w) = true ->
      forall moved,
        confidentialTransferFrom (token e) (msg_sender e) (self w) a p = Some moved ->
        exists n w', contribute e a p w = (Ok n, w')).
Proof.
  assert (Hbody : forall err, contribute_body e a p w = (Revert err, w) ->
            contribute_body e a p w = (Revert err, w)
            /\ contribute e a p w = (Revert err, w)).
  { intros err H. split; [exact H|]. unfold contribute, transact. now rewrite H. }
  split; [|split; [|split]].
  - intros Hc. apply Hbody. now rewrite contribute_body_eq, Hc.
  - intros Hc Ht. apply Hbody. rewrite contribute_body_eq, Hc.
    apply Z.leb_gt in Ht. now rewrite Ht.
  - intros Hc Ht Ho. apply Hbody. rewrite contribute_body_eq, Hc, Ho.
    apply Z.leb_le in Ht. now rewrite Ht.
  - intros Hc Ht Ho v Hm. apply (contribute_accepts e a p w v).
    unfold accepts. repeat split; try assumption. lia.
Qed.

Lemma C5_contribute_guards_witness :
  exists n w', contribute (Demo.at_time Demo.alice 4600) 500000%N [] Demo.world = (Ok n, w').
Proof.
  apply (proj2 (proj2 (proj2
           (C5_contribute_guards (Demo.at_time Demo.alice 4600) 500000%N [] Demo.world))))
    with (moved := 500000); reflexivity.
Defined.

(** ** C6: configuring the campaign *)

(** C6, as stated, fails: on a closed campaign [configureCampaign] reverts
    with "Campaign closed", the reason [contribute] gives, and not with
    "Already closed", the reason of [closeCampaign]. *)
Lemma C6_configure_on_closed_campaign :
  isClosed closed_demo = true
  /\ fst (configureCampaign (Demo.at_time Demo.deployer 3100) "Second round" 7000000 9000
            closed_demo) = Revert Campaign_closed
  /\ fst (configureCampaign (Demo.at_time Demo.deployer 3100) "Second round" 7000000 9000
            closed_demo) <> Revert Already_closed
  /\ reason Campaign_closed <> reason Already_closed.
Proof. repeat split; (reflexivity || discriminate). Qed.

(** C6 (amended): [configureCampaign] fails with "Only fundraiser" for every
    caller other than the fundraiser; otherwise with "Campaign closed" when
    the campaign is closed; otherwise with "Name required" when the name is
    empty; otherwise with "Target required" when the target is not positive;
    otherwise with "End time must be in future" when the end time is not
    after the block time.  In every other case it succeeds, [getCampaign]
    then returns the new name, target and end time with closed false, and
    the event [CampaignUpdated] with these values is appended to the log. *)
Theorem C6_configure_guards e n t d w :
  (msg_sender e <> fundraiser w ->
     configureCampaign e n t d w = (Revert Only_fundraiser, w))
  /\ (msg_sender e = fundraiser w ->
      (isClosed w = true -> configureCampaign e n t d w = (Revert Campaign_closed, w))
      /\ (isClosed w = false ->
          (String.length n = 0%nat ->
             configureCampaign e n t d w = (Revert Name_required, w))
          /\ (String.length n <> 0%nat ->
              (t <= 0 -> configureCampaign e n t d w = (Revert Target_required, w))
              /\ (0 < t ->
                  (d <= block_timestamp e ->
                     configureCampaign e n t d w = (Revert End_time_must_be_in_future, w))
                  /\ (block_timestamp e < d ->
                      exists w',
                        configureCampaign e n t d w = (Ok tt, w')
                        /\ getCampaign w' = (n, t, d, false)
                        /\ events w' = events w ++ [CampaignUpdated n t d]
                        /\ w' = configured n t d w))))).
Proof.
  rewrite configureCampaign_eq. split.
  - intros Hs. now rewrite bool_decide_eq_false_2.
  - intros Hs. rewrite bool_decide_eq_true_2 by exact Hs. cbn [negb]. split.
    + intros ->. reflexivity.
    + intros Hc. rewrite Hc. split.
      * intros ->. reflexivity.
      * intros Hn. destruct (Nat.ltb_spec 0 (String.length n)) as [_|Hl]; [|lia].
        cbn [negb]. split.
        -- intros Ht. apply Z.ltb_ge in Ht. now rewrite Ht.
        -- intros Ht. apply Z.ltb_lt in Ht. rewrite Ht. cbn [negb]. split.
           ++ intros Hd. apply Z.ltb_ge in Hd. now rewrite Hd.
           ++ intros Hd. apply Z.ltb_lt in Hd. rewrite Hd. cbn [negb].
              eexists. split; [reflexivity|]. repeat split.
              unfold getCampaign, configured; cbn. now rewrite Hc.
Qed.

Lemma C6_configure_guards_witness :
  exists w',
    configureCampaign (Demo.at_time Demo.deployer 2000) "Relief Pool II" 6000000 9000
      Demo.world = (Ok tt, w')
    /\ getCampaign w' = ("Relief Pool II", 6000000, 9000, false)
    /\ events w' = events Demo.world ++ [CampaignUpdated "Relief Pool II" 6000000 9000]
    /\ w' = configured "Relief Pool II" 6000000 9000 Demo.world.
Proof.
  pose proof (C6_configure_guards (Demo.at_time Demo.deployer 2000) "Relief Pool II"
                6000000 9000 Demo.world) as [_ H].
  destruct (H eq_refl) as [_ H1]. destruct (H1 eq_refl) as [_ H2].
  destruct H2 as [_ H3]; [cbn; lia|]. destruct H3 as [_ H4]; [lia|].
  apply H4. cbn. lia.
Defined.

(** ** C7: the closed flag *)

(** What a transaction never writes: the immutables, and, unless it is a
    [configureCampaign] or a [closeCampaign] that goes through, the campaign
    and the closed flag. *)
Lemma contribute_frame e a p w :
  let w' := snd (contribute e a p w) in
  self w' = self w /\ cEth w' = cEth w /\ fundraiser w' = fundraiser w
  /\ _campaign w' = _campaign w /\ isClosed w' = isClosed w.
Proof.
  unfold contribute, transact. rewrite contribute_body_eq.
  destruct (isClosed w) eqn:Hc; [cbn; auto|].
  destruct (negb _); [cbn; auto|]. destruct (negb _); [cbn; auto|].
  destruct (confidentialTransferFrom _ _ _ _ _) as [v|]; [|cbn; auto].
  destruct (bookkeeping_shape e (counter (fhe w)) (moved_in e v w)) as (n & u & f' & ->).
  cbn. auto.
Qed.

Lemma step_immutables w tx :
  self (step w tx) = self w /\ cEth (step w tx) = cEth w
  /\ fundraiser (step w tx) = fundraiser w.
Proof.
  destruct tx as [e [n t d|a p|]]; unfold step, execute; cbn [fst snd].
  - rewrite configureCampaign_eq.
    repeat (match goal with |- context [if ?b then _ else _] => destruct b end;
            cbn; auto).
  - pose proof (contribute_frame e a p w) as H. cbv zeta in H. tauto.
  - rewrite closeCampaign_eq.
    repeat (match goal with |- context [if ?b then _ else _] => destruct b end;
            cbn; auto).
    unfold closed_world, closing. destruct (FHE.isInitialized _); cbn; auto.
Qed.

(** On a closed campaign every transaction reverts. *)
Lemma execute_closed w tx :
  isClosed w = true -> exists err, execute tx w = (Revert err, w).
Proof.
  intros Hc. destruct tx as [e [n t d|a p|]]; unfold execute; cbn [fst snd].
  - rewrite configureCampaign_eq, Hc. destruct (negb _); cbn; eauto.
  - unfold contribute, transact. rewrite contribute_body_eq, Hc. cbn. eauto.
  - rewrite closeCampaign_eq, Hc. destruct (negb _); cbn; eauto.
Qed.

Lemma run_closed txs : forall w, isClosed w = true -> run w txs = w.
Proof.
  induction txs as [|tx txs IH]; intros w Hc; [reflexivity|].
  change (run (step w tx) txs = w).
  destruct (execute_closed w tx Hc) as [err E].
  assert (S : step w tx = w) by (unfold step; now rewrite E).
  rewrite S. apply IH, Hc.
Qed.

(** C7, as stated, fails: after a contribution and the close, the
    fundraiser's [configureCampaign] reverts with "Campaign closed", not with
    "Already closed", and a further [closeCampaign] by a contributor reverts
    with "Only fundraiser". *)
Lemma C7_reverts_after_close :
  let w := run Demo.world [(Demo.at_time Demo.bob 2000, Contribute 750000%N []);
                           (Demo.at_time Demo.deployer 3000, CloseCampaign)] in
  isClosed w = true
  /\ fst (execute (Demo.at_time Demo.deployer 3100,
                   ConfigureCampaign "Relief Pool" 5000000 4600) w) = Revert Campaign_closed
  /\ fst (execute (Demo.at_time Demo.deployer 3100,
                   ConfigureCampaign "Relief Pool" 5000000 4600) w) <> Revert Already_closed
  /\ fst (execute (Demo.at_time Demo.bob 3200, CloseCampaign) w) = Revert Only_fundraiser
  /\ fst (execute (Demo.at_time Demo.bob 3200, CloseCampaign) w) <> Revert Already_closed.
Proof. vm_compute. repeat split; (reflexivity || discriminate). Qed.

(** C7 (amended): the closed flag is false at construction; a transaction
    turns it from false to true only if it is a [closeCampaign] that goes
    through; once it is true, no sequence of transactions changes the flag,
    the campaign metadata or anything else; and on a closed campaign every
    [configureCampaign] and every [closeCampaign] fails: with "Only
    fundraiser" for a caller other than the fundraiser, and for the
    fundraiser with "Campaign closed" and "Already closed" respectively. *)
Theorem C7_closed_is_final :
  (forall this e tok n t d w0, constructor this e tok n t d = Ok w0 -> isClosed w0 = false)
  /\ (forall w tx, isClosed w = false -> isClosed (step w tx) = true ->
        snd tx = CloseCampaign /\ fst (execute tx w) = Ok tt)
  /\ (forall w txs, isClosed w = true ->
        isClosed (run w txs) = true /\ getCampaign (run w txs) = getCampaign w
        /\ run w txs = w)
  /\ (forall w e n t d, isClosed w = true ->
        configureCampaign e n t d w =
          (Revert (if bool_decide (msg_sender e = fundraiser w)
                   then Campaign_closed else Only_fundraiser), w))
  /\ (forall w e, isClosed w = true ->
        closeCampaign e w =
          (Revert (if bool_decide (msg_sender e = fundraiser w)
                   then Already_closed else Only_fundraiser), w)).
Proof.
  split; [|split; [|split; [|split]]].
  - intros this e tok n t d w0. unfold constructor, constructor_body.
    unfold mbind at 1; unfold M_bind at 1. unfold require at 1.
    destruct (negb (tok =? 0)%N); [|discriminate].
    unfold mret at 1, M_ret at 1. unfold mbind at 1; unfold M_bind at 1. unfold store at 1.
    rewrite setCampaign_eq. cbn [isClosed blank set_immutables].
    destruct (negb _); [discriminate|]. destruct (negb _); [discriminate|].
    destruct (negb _); [discriminate|].
    intros H. inversion H. reflexivity.
  - intros w [e [n t d|a p|]] Hc; unfold step, execute; cbn [fst snd].
    + rewrite configureCampaign_eq, Hc.
      repeat (match goal with |- context [if ?b then _ else _] => destruct b end;
              cbn; try congruence).
    + pose proof (contribute_frame e a p w) as H. cbv zeta in H. intros H'.
      destruct H as (_ & _ & _ & _ & H). congruence.
    + rewrite closeCampaign_eq, Hc.
      repeat (match goal with |- context [if ?b then _ else _] => destruct b end;
              cbn; try congruence).
      auto.
  - intros w txs Hc. rewrite (run_closed txs w Hc). auto.
  - intros w e n t d Hc. rewrite configureCampaign_eq, Hc.
    now destruct (bool_decide _).
  - intros w e Hc. rewrite closeCampaign_eq, Hc. now destruct (bool_decide _).
Qed.

Lemma C7_closed_is_final_witness :
  isClosed (run closed_demo [(Demo.at_time Demo.deployer 3100,
                              ConfigureCampaign "Second round" 7000000 9000);
                             (Demo.at_time Demo.deployer 3200, CloseCampaign)]) = true.
Proof.
  apply (proj1 (proj2 (proj2 C7_closed_is_final))). reflexivity.
Defined.

(** ** C8: closing a campaign without contributions *)



(** ** C9: the grants of an accepted contribution *)



(** ** C10: construction and the immutables *)

Lemma run_immutables txs : forall w,
  self (run w txs) = self w /\ cEth (run w txs) = cEth w
  /\ fundraiser (run w txs) = fundraiser w.
Proof.
  induction txs as [|tx txs IH]; intros w; [auto|].
  change (run w (tx :: txs)) with (run (step w tx) txs).
  destruct (IH (step w tx)) as (-> & -> & ->). apply step_immutables.
Qed.

(** C10: construction fails with "Token required" for the zero token
    address; for a nonzero token address and a name, target and end time that
    pass the checks of [_setCampaign], it succeeds, the fundraiser is the
    deployer, the token is the given address, the campaign is the given one
    and it is open; and no sequence of transactions changes the fundraiser or
    the token address. *)
Theorem C10_construction :
  (forall this e n t d, constructor this e 0%N n t d = Revert Token_required)
  /\ (forall this e tok n t d,
        tok <> 0%N -> valid_campaign (block_timestamp e) n t d = true ->
        exists w,
          constructor this e tok n t d = Ok w
          /\ fundraiser w = msg_sender e /\ cEth w = tok /\ self w = this
          /\ isClosed w = false /\ getCampaign w = (n, t, d, false)
          /\ events w = [CampaignUpdated n t d])
  /\ (forall w txs,
        fundraiser (run w txs) = fundraiser w /\ cEth (run w txs) = cEth w).
Proof.
  split; [reflexivity|]. split.
  - intros this e tok n t d Htok Hv.
    unfold valid_campaign in Hv. apply andb_prop in Hv as [Hv Hd].
    apply andb_prop in Hv as [Hn Ht].
    unfold constructor, constructor_body.
    unfold mbind at 1; unfold M_bind at 1. unfold require at 1.
    destruct (N.eqb_spec tok 0) as [->|_]; [now destruct Htok|]. cbn [negb].
    unfold mret at 1, M_ret at 1. unfold mbind at 1; unfold M_bind at 1. unfold store at 1.
    rewrite setCampaign_eq. cbn [isClosed blank set_immutables].
    rewrite Hn, Ht, Hd. cbn [negb].
    eexists. split; [reflexivity|]. repeat split.
  - intros w txs. pose proof (run_immutables txs w). tauto.
Qed.

Lemma C10_construction_witness :
  exists w,
    constructor Demo.this (Demo.at_time Demo.deployer 1000) Demo.tokenAddress
      "Relief Pool" 5000000 4600 = Ok w
    /\ fundraiser w = Demo.deployer /\ cEth w = Demo.tokenAddress /\ self w = Demo.this
    /\ isClosed w = false /\ getCampaign w = ("Relief Pool", 5000000, 4600, false)
    /\ events w = [CampaignUpdated "Relief Pool" 5000000 4600].
Proof.
  apply (proj1 (proj2 C10_construction) Demo.this (Demo.at_time Demo.deployer 1000)
           Demo.tokenAddress "Relief Pool" 5000000 4600).
  - discriminate.
  - reflexivity.
Defined.

(** * Further properties of the contract *)

(** ** The outcomes of a transaction *)

Lemma constructor_Ok_inv this e tok n t d w0 :
  constructor this e tok n t d = Ok w0 ->
  tok <> 0%N
  /\ valid_campaign (block_timestamp e) n t d = true
  /\ w0 = configured n t d (set_immutables (msg_sender e) tok (blank this)).
Proof.
  unfold constructor, constructor_body, valid_campaign.
  unfold mbind at 1; unfold M_bind at 1. unfold require at 1.
  destruct (N.eqb_spec tok 0) as [->|Htok]; [discriminate|]. cbn [negb].
  unfold mret at 1, M_ret at 1. unfold mbind at 1; unfold M_bind at 1. unfold store at 1.
  rewrite setCampaign_eq. cbn [isClosed blank set_immutables].
  destruct (0 <? String.length n)%nat; [|discriminate].
  destruct (0 <? t); [|discriminate].
  destruct (block_timestamp e <? d); [|discriminate].
  cbn [negb andb]. intros H. inversion H. auto.
Qed.

Lemma step_Stepped w acc tx : Inv w acc -> Stepped w tx (step w tx) (recorded w tx).
Proof.
  intros I. destruct tx as [e [n t d|a p|]]; unfold step, recorded, execute; cbn [fst snd].
  - rewrite configureCampaign_eq.
    destruct (bool_decide (msg_sender e = fundraiser w)) eqn:Hs; cbn [negb snd];
      [|constructor].
    apply bool_decide_eq_true in Hs.
    destruct (isClosed w) eqn:Hc; [constructor|].
    destruct (0 <? String.length n)%nat eqn:Hn; cbn [negb snd]; [|constructor].
    destruct (0 <? t) eqn:Ht; cbn [negb snd]; [|constructor].
    destruct (block_timestamp e <? d) eqn:Hd; cbn [negb snd]; [|constructor].
    eapply stepped_configured; [reflexivity | exact Hs | exact Hc |].
    unfold valid_campaign. cbn [fst]. now rewrite Hn, Ht, Hd.
  - destruct (contribute e a p w) as [[k|err] w'] eqn:E; cbn [fst snd outcome].
    2:{ apply transact_revert in E. subst. constructor. }
    destruct (contribute_Ok_inv _ _ _ _ _ _ E) as [v Hacc].
    destruct (contribute_ok e a p w v (inv_wf _ _ I) (Inv_stored_below _ _ I) Hacc)
      as (k' & u & f' & E' & W & L & Hk & Hu & Hku & Pt & Pk & Pu & Ak & Au).
    rewrite E in E'. inversion E'; subst k w'. clear E'.
    pose proof Hacc as (_ & _ & _ & Hm). rewrite Hm.
    eapply (stepped_contributed w (e, Contribute a p) a p v k' u f'); try eassumption.
    reflexivity.
  - rewrite closeCampaign_eq.
    destruct (bool_decide (msg_sender e = fundraiser w)) eqn:Hs; cbn [negb snd];
      [|constructor].
    apply bool_decide_eq_true in Hs.
    destruct (isClosed w) eqn:Hc; [constructor|].
    destruct (confidentialTransfer (token e) (fundraiser w) (payout_of w)) eqn:Ht;
      cbn [snd]; [|constructor].
    now apply stepped_closed.
Qed.

Lemma receipt_recorded w tx : map fst (receipt w tx) = recorded w tx.
Proof. unfold receipt. rewrite map_map. cbn. apply map_id. Qed.

Lemma receipts_accepted txs : forall w, map fst (receipts w txs) = accepted w txs.
Proof.
  induction txs as [|tx txs IH]; intros w; cbn; [reflexivity|].
  now rewrite map_app, receipt_recorded, IH.
Qed.

(** Induction over the states reached from a deployment, with the receipts
    of the trace. *)
Lemma reach_ind (P : World -> list (N * Z * Z) -> Prop) this e tok n t d w0 :
  constructor this e tok n t d = Ok w0 ->
  P w0 [] ->
  (forall w rs tx w' r,
     Inv w (map fst rs) -> P w rs -> Stepped w tx w' r ->
     P w' (rs ++ map (fun x => (x, block_timestamp (fst tx))) r)) ->
  forall txs, P (run w0 txs) (receipts w0 txs).
Proof.
  intros H P0 Pstep txs.
  assert (G : forall txs w rs, Inv w (map fst rs) -> P w rs ->
                P (run w txs) (rs ++ receipts w txs)).
  { clear txs. induction txs as [|tx txs IH]; intros w rs I Pw.
    - cbn. now rewrite app_nil_r.
    - change (run w (tx :: txs)) with (run (step w tx) txs).
      change (receipts w (tx :: txs)) with (receipt w tx ++ receipts (step w tx) txs).
      rewrite app_assoc. apply IH.
      + rewrite map_app, receipt_recorded. apply step_Inv, I.
      + apply (Pstep w rs tx (step w tx) (recorded w tx) I Pw). eapply step_Stepped, I. }
  apply (G txs w0 []); [|exact P0]. apply (Inv_init _ _ _ _ _ _ _ H).
Qed.

(** ** [timeRemaining] *)

(** The value of [timeRemaining] on typed inputs. *)
Lemma timeRemaining_max e w :
  0 <= block_timestamp e ->
  0 <= endTime (_campaign w) < two64 ->
  timeRemaining e w = Z.max 0 (endTime (_campaign w) - block_timestamp e)
  /\ 0 <= timeRemaining e w < two64
  /\ (timeRemaining e w = 0 <-> endTime (_campaign w) <= block_timestamp e).
Proof.
  intros Hn Hd. unfold timeRemaining.
  destruct (Z.leb_spec (endTime (_campaign w)) (block_timestamp e)) as [Hle|Hlt].
  - split; [lia|]. split; [unfold two64; lia|]. split; [intros _; exact Hle | reflexivity].
  - rewrite Z.mod_small by lia. split; [lia|]. split; [lia|]. split; lia.
Qed.

(** X1: for a block time that is not negative and an end time in the range
    of [uint64], [timeRemaining] is the time left, [max 0 (endTime - now)]:
    the subtraction does not underflow, the cast to [uint64] loses nothing,
    and the answer is 0 exactly from the end time on. *)
Theorem X1_timeRemaining_is_time_left e w :
  0 <= block_timestamp e ->
  0 <= endTime (_campaign w) < two64 ->
  timeRemaining e w = Z.max 0 (endTime (_campaign w) - block_timestamp e)
  /\ 0 <= timeRemaining e w < two64
  /\ (timeRemaining e w = 0 <-> endTime (_campaign w) <= block_timestamp e).
Proof. intros Hn Hd. exact (timeRemaining_max e w Hn Hd). Qed.

Lemma X1_timeRemaining_is_time_left_witness :
  timeRemaining (Demo.at_time Demo.alice 2000) Demo.world = 2600
  /\ timeRemaining (Demo.at_time Demo.alice 4600) Demo.world = 0
  /\ timeRemaining (Demo.at_time Demo.alice 9999) Demo.world = 0.
Proof.
  pose proof (X1_timeRemaining_is_time_left (Demo.at_time Demo.alice 2000) Demo.world)
    as (H1 & _); [vm_compute; discriminate | vm_compute; split; [discriminate | reflexivity] |].
  pose proof (X1_timeRemaining_is_time_left (Demo.at_time Demo.alice 4600) Demo.world)
    as (H2 & _); [vm_compute; discriminate | vm_compute; split; [discriminate | reflexivity] |].
  pose proof (X1_timeRemaining_is_time_left (Demo.at_time Demo.alice 9999) Demo.world)
    as (H3 & _); [vm_compute; discriminate | vm_compute; split; [discriminate | reflexivity] |].
  split; [exact H1 | split; [exact H2 | exact H3]].
Defined.

(** [contribute] reverts with "Past end time" exactly on an open campaign
    after its end time. *)
Lemma contribute_past_end_iff e a p w :
  fst (contribute e a p w) = Revert Past_end_time <->
  isClosed w = false /\ endTime (_campaign w) < block_timestamp e.
Proof.
  unfold contribute, transact. rewrite contribute_body_eq.
  destruct (isClosed w); [cbn; split; [discriminate | intros [? _]; discriminate]|].
  destruct (Z.leb_spec (block_timestamp e) (endTime (_campaign w))) as [Hle|Hlt]; cbn [negb].
  - split; [|intros [_ ?]; lia].
    destruct (negb _); [discriminate|].
    destruct (confidentialTransferFrom _ _ _ _ _) as [v|]; [|discriminate].
    destruct (bookkeeping_returns e (counter (fhe w)) (moved_in e v w)) as (k & w1 & ->).
    discriminate.
  - cbn. split; auto.
Qed.

(** X2: [timeRemaining] against the end-time guard of [contribute].  While
    [timeRemaining] is positive, [contribute] does not revert with "Past end
    time"; when [contribute] reverts with "Past end time", [timeRemaining] is
    0; but at the end time itself [timeRemaining] is already 0 and
    [contribute] still does not revert with "Past end time". *)
Theorem X2_timeRemaining_and_contribute e a p w :
  0 <= block_timestamp e ->
  0 <= endTime (_campaign w) < two64 ->
  (0 < timeRemaining e w -> fst (contribute e a p w) <> Revert Past_end_time)
  /\ (fst (contribute e a p w) = Revert Past_end_time -> timeRemaining e w = 0)
  /\ (block_timestamp e = endTime (_campaign w) ->
        timeRemaining e w = 0 /\ fst (contribute e a p w) <> Revert Past_end_time).
Proof.
  intros Hn Hd.
  destruct (timeRemaining_max e w Hn Hd) as (_ & _ & Hz).
  rewrite contribute_past_end_iff.
  split; [|split].
  - intros Hpos [_ Hlt]. assert (timeRemaining e w = 0) by (apply Hz; lia). lia.
  - intros [_ Hlt]. apply Hz. lia.
  - intros Heq. split; [apply Hz; lia|]. intros [_ Hlt]. lia.
Qed.

Lemma X2_timeRemaining_and_contribute_witness :
  timeRemaining (Demo.at_time Demo.alice 4600) Demo.world = 0
  /\ fst (contribute (Demo.at_time Demo.alice 4600) 5%N [] Demo.world) <> Revert Past_end_time.
Proof.
  apply (proj2 (proj2 (X2_timeRemaining_and_contribute (Demo.at_time Demo.alice 4600)
                         5%N [] Demo.world ltac:(vm_compute; discriminate)
                         ltac:(vm_compute; split; [discriminate | reflexivity])))).
  reflexivity.
Defined.

(** ** The event log and the state *)

Lemma omap_snoc_None {A B} (f : A -> option B) l x :
  f x = None -> omap f (l ++ [x]) = omap f l.
Proof. intros H. rewrite omap_app. cbn. rewrite H. apply app_nil_r. Qed.

Lemma omap_snoc_Some {A B} (f : A -> option B) l x y :
  f x = Some y -> omap f (l ++ [x]) = omap f l ++ [y].
Proof. intros H. rewrite omap_app. cbn. now rewrite H. Qed.

Lemma omap_agree {A B} (f g : A -> option B) (l : list A) :
  Forall (fun x => f x = g x) l -> omap f l = omap g l.
Proof.
  induction 1 as [|x l Hx _ IH]; cbn; [reflexivity|]. rewrite Hx, IH. reflexivity.
Qed.

(** X3: in every state reached from a deployment the campaign has a name
    that is not empty and a positive target, and [getCampaign] returns the
    values of the last [CampaignUpdated] event of the log. *)
Theorem X3_configuration_is_logged this e tok n t d w0 txs :
  constructor this e tok n t d = Ok w0 ->
  let w := run w0 txs in
  (0 < String.length (name (_campaign w)))%nat
  /\ 0 < targetAmount (_campaign w)
  /\ last (configuration_log w) =
       Some (name (_campaign w), targetAmount (_campaign w), endTime (_campaign w))
  /\ getCampaign w =
       (name (_campaign w), targetAmount (_campaign w), endTime (_campaign w), isClosed w).
Proof.
  intros H w.
  set (P := fun (w : World) (_ : list (N * Z * Z)) =>
    (0 < String.length (name (_campaign w)))%nat
    /\ 0 < targetAmount (_campaign w)
    /\ last (configuration_log w) =
         Some (name (_campaign w), targetAmount (_campaign w), endTime (_campaign w))).
  assert (G : P w (receipts w0 txs)).
  { apply (reach_ind P _ _ _ _ _ _ _ H).
    - destruct (constructor_Ok_inv _ _ _ _ _ _ _ H) as (_ & Hv & ->).
      unfold valid_campaign in Hv. apply andb_prop in Hv as [Hv _].
      apply andb_prop in Hv as [Hn Ht].
      apply Nat.ltb_lt in Hn. apply Z.ltb_lt in Ht. unfold P. cbn. auto.
    - intros w1 rs tx w' r _ (Hn & Ht & Hl) S. unfold P.
      destruct S as [|n' t' d' _ _ _ Hv| |].
      + auto.
      + unfold valid_campaign in Hv. apply andb_prop in Hv as [Hv _].
        apply andb_prop in Hv as [Hn' Ht'].
        apply Nat.ltb_lt in Hn'. apply Z.ltb_lt in Ht'.
        unfold configuration_log, configured. cbn.
        split; [exact Hn'|]. split; [exact Ht'|].
        erewrite omap_snoc_Some by reflexivity. apply last_snoc.
      + unfold configuration_log in *. cbn.
        split; [exact Hn|]. split; [exact Ht|].
        rewrite omap_snoc_None by reflexivity. exact Hl.
      + unfold configuration_log, closed_world, closing in *.
        destruct (FHE.isInitialized (_totalRaised w1)); cbn;
          (split; [exact Hn|]; split; [exact Ht|];
           rewrite omap_snoc_None by reflexivity; exact Hl). }
  destruct G as (Hn & Ht & Hl). repeat split; assumption.
Qed.

Lemma X3_configuration_is_logged_witness :
  let w := run Demo.world
             [(Demo.at_time Demo.deployer 2000, ConfigureCampaign "Relief Pool II" 6000000 9000);
              (Demo.at_time Demo.alice 2100, Contribute 5%N [])] in
  last (configuration_log w) = Some ("Relief Pool II", 6000000, 9000)
  /\ getCampaign w = ("Relief Pool II", 6000000, 9000, false).
Proof.
  intros w.
  pose proof (X3_configuration_is_logged _ _ _ _ _ _ _
                [(Demo.at_time Demo.deployer 2000,
                  ConfigureCampaign "Relief Pool II" 6000000 9000);
                 (Demo.at_time Demo.alice 2100, Contribute 5%N [])] Demo_deployed)
    as (_ & _ & Hl & Hg).
  split; [exact Hl | exact Hg].
Defined.

(** X4: [lastContributionAt] is the block time of the last accepted
    contribution of the trace, and 0 as long as none was accepted; no other
    transaction, and no failed one, writes it. *)
Theorem X4_lastContributionAt_is_last_accepted this e tok n t d w0 txs :
  constructor this e tok n t d = Ok w0 ->
  lastContributionAt (run w0 txs) = last_stamp (receipts w0 txs).
Proof.
  intros H.
  apply (reach_ind (fun w rs => lastContributionAt w = last_stamp rs) _ _ _ _ _ _ _ H).
  - destruct (constructor_Ok_inv _ _ _ _ _ _ _ H) as (_ & _ & ->). reflexivity.
  - intros w rs tx w' r _ Hl S. destruct S; cbn [map].
    + now rewrite app_nil_r.
    + now rewrite app_nil_r.
    + cbn. unfold last_stamp. now rewrite last_snoc.
    + rewrite app_nil_r. unfold closed_world, closing.
      now destruct (FHE.isInitialized _).
Qed.

Lemma X4_lastContributionAt_is_last_accepted_witness :
  lastContributionAt
    (run Demo.world [(Demo.at_time Demo.alice 2000, Contribute 5%N []);
                     (Demo.at_time Demo.bob 2500, Contribute 7%N []);
                     (Demo.at_time Demo.bob 5000, Contribute 9%N []);
                     (Demo.at_time Demo.deployer 6000, CloseCampaign)]) = 2500.
Proof.
  apply (X4_lastContributionAt_is_last_accepted _ _ _ _ _ _ _
           [(Demo.at_time Demo.alice 2000, Contribute 5%N []);
            (Demo.at_time Demo.bob 2500, Contribute 7%N []);
            (Demo.at_time Demo.bob 5000, Contribute 9%N []);
            (Demo.at_time Demo.deployer 6000, CloseCampaign)] Demo_deployed).
Defined.

Lemma logged_le f f' ev :
  fhe_le f f' -> event_below f ev -> logged f' ev = logged f ev.
Proof.
  intros L Hb. destruct ev as [| c h ts |]; cbn in *; [reflexivity | | reflexivity].
  now rewrite (reveal_le _ _ _ L Hb).
Qed.

Lemma event_below_le f f' ev : fhe_le f f' -> event_below f ev -> event_below f' ev.
Proof.
  intros L Hb. destruct ev as [| c h ts |]; cbn in *; auto.
  pose proof (le_counter _ _ L). lia.
Qed.

(** X5: the [ContributionReceived] events of the log are, in order, the
    accepted contributions of the trace: the contributor, the amount the
    token moved (the plaintext behind the ciphertext of the event) and the
    block time.  A failed [contribute] leaves no event. *)
Theorem X5_events_record_contributions this e tok n t d w0 txs :
  constructor this e tok n t d = Ok w0 ->
  contribution_log (run w0 txs) = receipts w0 txs.
Proof.
  intros H.
  set (P := fun (w : World) (rs : list (N * Z * Z)) =>
    contribution_log w = rs /\ Forall (event_below (fhe w)) (events w)).
  enough (G : P (run w0 txs) (receipts w0 txs)) by apply G.
  apply (reach_ind P _ _ _ _ _ _ _ H).
  - destruct (constructor_Ok_inv _ _ _ _ _ _ _ H) as (_ & _ & ->).
    split; [reflexivity|]. cbn. repeat constructor.
  - intros w rs tx w' r I [Hl Hb] S. unfold P, contribution_log in *.
    destruct S as [| n' t' d' _ _ _ _ | a p v k u f' _ _ W L Hk Hu _ Pt _ _ _ _ | _ _ _ _];
      cbn [map].
    + rewrite app_nil_r. auto.
    + rewrite app_nil_r. unfold configured. cbn. split.
      * rewrite omap_snoc_None by reflexivity. exact Hl.
      * apply Forall_app. split; [exact Hb|]. repeat constructor.
    + cbn [events fhe]. split.
      * erewrite omap_snoc_Some.
        2:{ cbn. unfold reveal. rewrite Pt. reflexivity. }
        f_equal. rewrite <- Hl. apply omap_agree.
        eapply Forall_impl; [exact Hb|]. intros ev Hev. now apply logged_le.
      * apply Forall_app. split.
        -- eapply Forall_impl; [exact Hb|]. intros ev Hev. now apply (event_below_le (fhe w)).
        -- repeat constructor. cbn. apply (wf_plain _ W) in Pt. lia.
    + rewrite app_nil_r.
      pose proof (closing_le w (inv_wf _ _ I)) as L.
      unfold closed_world. cbn [events fhe add_event add_call].
      assert (Ee : events (closing w) = events w)
        by (unfold closing; now destruct (FHE.isInitialized _)).
      rewrite Ee. split.
      * rewrite omap_snoc_None by reflexivity. rewrite <- Hl. apply omap_agree.
        eapply Forall_impl; [exact Hb|]. intros ev Hev. now apply logged_le.
      * apply Forall_app. split; [|repeat constructor].
        eapply Forall_impl; [exact Hb|]. intros ev Hev. now apply (event_below_le (fhe w)).
Qed.

Lemma X5_events_record_contributions_witness :
  contribution_log
    (run Demo.world [(Demo.at_time Demo.alice 2000, Contribute 2500000%N []);
                     (Demo.at_time Demo.bob 5000, Contribute 9%N []);
                     (Demo.at_time Demo.bob 2500, Contribute 750000%N []);
                     (Demo.at_time Demo.deployer 6000, CloseCampaign)])
  = [(Demo.alice, 2500000, 2000); (Demo.bob, 750000, 2500)].
Proof.
  apply (X5_events_record_contributions _ _ _ _ _ _ _
           [(Demo.at_time Demo.alice 2000, Contribute 2500000%N []);
            (Demo.at_time Demo.bob 5000, Contribute 9%N []);
            (Demo.at_time Demo.bob 2500, Contribute 750000%N []);
            (Demo.at_time Demo.deployer 6000, CloseCampaign)] Demo_deployed).
Defined.

(** ** The calls into the token *)

(** X6: the contract pays out at most once and only to the fundraiser: in
    every state reached from a deployment, no transfer out of the contract
    has been made while the campaign is open, and exactly one, to the
    fundraiser, once it is closed. *)
Theorem X6_single_payout_to_fundraiser this e tok n t d w0 txs :
  constructor this e tok n t d = Ok w0 ->
  let w := run w0 txs in
  (isClosed w = false -> outflows w = [])
  /\ (isClosed w = true -> exists h, outflows w = [(fundraiser w, h)]).
Proof.
  intros H w.
  set (P := fun (w : World) (_ : list (N * Z * Z)) =>
    (isClosed w = false -> outflows w = [])
    /\ (isClosed w = true -> exists h, outflows w = [(fundraiser w, h)])).
  enough (G : P w (receipts w0 txs)) by apply G.
  apply (reach_ind P _ _ _ _ _ _ _ H).
  - destruct (constructor_Ok_inv _ _ _ _ _ _ _ H) as (_ & _ & ->).
    split; [reflexivity | discriminate].
  - intros w1 rs tx w' r _ [Ho Hc] S. unfold P, outflows in *.
    destruct S as [| n' t' d' _ _ Hop _ | a p v k u f' _ Hacc _ _ _ _ _ _ _ _ _ _ | _ _ Hop _].
    + auto.
    + unfold configured. cbn. rewrite Hop. split; [auto | discriminate].
    + destruct Hacc as (Hop & _). cbn. rewrite Hop.
      split; [|discriminate]. intros _. rewrite omap_snoc_None by reflexivity. auto.
    + unfold closed_world. cbn [calls isClosed fundraiser add_event add_call].
      assert (E : calls (closing w1) = calls w1 /\ isClosed (closing w1) = true
                  /\ fundraiser (closing w1) = fundraiser w1)
        by (unfold closing; now destruct (FHE.isInitialized _)).
      destruct E as (-> & -> & ->). split; [discriminate|]. intros _.
      exists (payout_of w1). erewrite omap_snoc_Some by reflexivity.
      now rewrite (Ho Hop).
Qed.

Lemma X6_single_payout_to_fundraiser_witness :
  let w := run Demo.world [(Demo.at_time Demo.alice 2000, Contribute 2500000%N []);
                           (Demo.at_time Demo.deployer 6000, CloseCampaign);
                           (Demo.at_time Demo.deployer 6100, CloseCampaign)] in
  exists h, outflows w = [(Demo.deployer, h)].
Proof.
  intros w.
  apply (proj2 (X6_single_payout_to_fundraiser _ _ _ _ _ _ _
                  [(Demo.at_time Demo.alice 2000, Contribute 2500000%N []);
                   (Demo.at_time Demo.deployer 6000, CloseCampaign);
                   (Demo.at_time Demo.deployer 6100, CloseCampaign)] Demo_deployed)).
  reflexivity.
Defined.

(** X7: the transfers into the contract and the [ContributionReceived]
    events match one to one: every call of [confidentialTransferFrom] that
    went through moved tokens from the contributor of the matching event to
    the contract itself, and the event carries the ciphertext the token
    returned. *)
Theorem X7_inflows_match_events this e tok n t d w0 txs :
  constructor this e tok n t d = Ok w0 ->
  let w := run w0 txs in
  map (fun i => (fst (fst i), snd i)) (inflows w) = omap contribution_handle (events w)
  /\ Forall (fun i => snd (fst i) = self w) (inflows w)
  /\ length (inflows w) = length (accepted w0 txs).
Proof.
  intros H w.
  set (P := fun (w : World) (rs : list (N * Z * Z)) =>
    map (fun i => (fst (fst i), snd i)) (inflows w) = omap contribution_handle (events w)
    /\ Forall (fun i => snd (fst i) = self w) (inflows w)
    /\ length (inflows w) = length rs).
  enough (G : P w (receipts w0 txs)).
  { destruct G as (G1 & G2 & G3). rewrite <- receipts_accepted, length_map. auto. }
  apply (reach_ind P _ _ _ _ _ _ _ H).
  - destruct (constructor_Ok_inv _ _ _ _ _ _ _ H) as (_ & _ & ->).
    repeat split. constructor.
  - intros w1 rs tx w' r _ (Hm & Hs & Hl) S. unfold P, inflows in *.
    destruct S; cbn [map].
    + rewrite app_nil_r. auto.
    + rewrite app_nil_r. unfold configured. cbn.
      rewrite omap_snoc_None by reflexivity. auto.
    + cbn [calls events self].
      erewrite !omap_snoc_Some by reflexivity.
      rewrite map_app, Forall_app, !length_app, Hm, Hl. cbn.
      repeat split; [exact Hs | repeat constructor].
    + rewrite app_nil_r. unfold closed_world. cbn [calls events self add_event add_call].
      assert (E : calls (closing w1) = calls w1 /\ events (closing w1) = events w1
                  /\ self (closing w1) = self w1)
        by (unfold closing; now destruct (FHE.isInitialized _)).
      destruct E as (-> & -> & ->).
      rewrite !omap_snoc_None by reflexivity. auto.
Qed.

Lemma X7_inflows_match_events_witness :
  let w := run Demo.world [(Demo.at_time Demo.alice 2000, Contribute 2500000%N []);
                           (Demo.at_time Demo.bob 5000, Contribute 9%N []);
                           (Demo.at_time Demo.deployer 6000, CloseCampaign)] in
  length (inflows w) = 1%nat.
Proof.
  intros w.
  apply (proj2 (proj2 (X7_inflows_match_events _ _ _ _ _ _ _
                  [(Demo.at_time Demo.alice 2000, Contribute 2500000%N []);
                   (Demo.at_time Demo.bob 5000, Contribute 9%N []);
                   (Demo.at_time Demo.deployer 6000, CloseCampaign)] Demo_deployed))).
Defined.

(** X8: closing after contributions pays out the total.  When
    [closeCampaign] goes through in a state reached with at least one
    accepted contribution, the ciphertext passed to the token and carried by
    [CampaignClosed] is the stored total, which decrypts for the fundraiser
    to the sum of the accepted amounts modulo 2^64; nothing is minted, and
    the total stays in storage: [totalRaised] still returns it after the
    close. *)
Theorem X8_payout_is_total this e0 tok n t d w0 txs e w' :
  constructor this e0 tok n t d = Ok w0 ->
  accepted w0 txs <> [] ->
  let w := run w0 txs in
  closeCampaign e w = (Ok tt, w') ->
  calls w' = calls w ++ [Transfer (fundraiser w) (totalRaised w)]
  /\ events w' = events w ++ [CampaignClosed (fundraiser w) (totalRaised w) (block_timestamp e)]
  /\ totalRaised w' = totalRaised w
  /\ fhe w' = fhe w
  /\ decrypt (fhe w') (totalRaised w') (fundraiser w')
       = Some (sum (amounts (accepted w0 txs)) mod two64).
Proof.
  intros H Hacc w E.
  pose proof (reachable_Inv _ _ _ _ _ _ _ txs H) as I. fold w in I.
  destruct (inv_total _ _ I Hacc) as (H0 & Hp & _ & Ha).
  assert (Hi : FHE.isInitialized (_totalRaised w) = true).
  { unfold FHE.isInitialized. now destruct (N.eqb_spec (_totalRaised w) 0). }
  rewrite closeCampaign_eq in E.
  destruct (negb _); [discriminate|]. destruct (isClosed w); [discriminate|].
  destruct (confidentialTransfer _ _ _); [|discriminate].
  inversion E; subst w'. clear E.
  unfold closed_world, closing, payout_of, totalRaised, decrypt, allowed. rewrite Hi. cbn.
  repeat split. rewrite bool_decide_eq_true_2 by exact Ha. exact Hp.
Qed.

Lemma X8_payout_is_total_witness :
  let w := run Demo.world [(Demo.at_time Demo.bob 2000, Contribute 750000%N [])] in
  let w' := snd (closeCampaign (Demo.at_time Demo.deployer 3000) w) in
  calls w' = calls w ++ [Transfer Demo.deployer (totalRaised w)]
  /\ decrypt (fhe w') (totalRaised w') Demo.deployer = Some 750000.
Proof.
  intros w w'.
  destruct (X8_payout_is_total _ _ _ _ _ _ _
              [(Demo.at_time Demo.bob 2000, Contribute 750000%N [])]
              (Demo.at_time Demo.deployer 3000) w' Demo_deployed)
    as (Hc & _ & _ & _ & Hd);
    [vm_compute; discriminate | subst w'; vm_compute; reflexivity |].
  split; [exact Hc | exact Hd].
Defined.

(** ** Who can change what *)

Lemma contribute_calls e a p w :
  outflows (snd (contribute e a p w)) = outflows w.
Proof.
  unfold contribute, transact. rewrite contribute_body_eq.
  destruct (isClosed w); [reflexivity|].
  destruct (negb _); [reflexivity|]. destruct (negb _); [reflexivity|].
  destruct (confidentialTransferFrom _ _ _ _ _) as [v|]; [|reflexivity].
  destruct (bookkeeping_shape e (counter (fhe w)) (moved_in e v w)) as (k & u & f' & ->).
  unfold outflows. cbn. now rewrite omap_snoc_None by reflexivity.
Qed.

(** X9: only the fundraiser configures and closes.  A transaction sent by
    anyone else, and every [contribute] whoever sends it, leaves the campaign
    metadata and the closed flag as they were and makes no transfer out of
    the contract. *)
Theorem X9_only_fundraiser_configures_or_closes w tx :
  msg_sender (fst tx) <> fundraiser w \/ (exists a p, snd tx = Contribute a p) ->
  getCampaign (step w tx) = getCampaign w
  /\ isClosed (step w tx) = isClosed w
  /\ outflows (step w tx) = outflows w.
Proof.
  intros Hwho.
  assert (Hc : forall a p, snd tx = Contribute a p ->
            getCampaign (step w tx) = getCampaign w
            /\ isClosed (step w tx) = isClosed w /\ outflows (step w tx) = outflows w).
  { intros a p E. destruct tx as [e c]. cbn in E. subst c.
    unfold step, execute; cbn [fst snd].
    pose proof (contribute_frame e a p w) as F. cbv zeta in F.
    destruct F as (_ & _ & _ & F1 & F2).
    unfold getCampaign. rewrite F1, F2. split; [reflexivity|]. split; [reflexivity|].
    apply contribute_calls. }
  destruct Hwho as [Hs | (a & p & E)]; [|now apply (Hc a p)].
  destruct tx as [e [n' t' d'|a p|]]; cbn [fst snd] in *.
  - unfold step, execute; cbn [fst snd]. rewrite configureCampaign_eq.
    rewrite bool_decide_eq_false_2 by exact Hs. auto.
  - now apply (Hc a p).
  - unfold step, execute; cbn [fst snd]. rewrite closeCampaign_eq.
    rewrite bool_decide_eq_false_2 by exact Hs. auto.
Qed.

Lemma X9_only_fundraiser_configures_or_closes_witness :
  getCampaign (step Demo.world (Demo.at_time Demo.alice 2000,
                                ConfigureCampaign "Mine" 1 9000)) = getCampaign Demo.world
  /\ isClosed (step Demo.world (Demo.at_time Demo.alice 2000, CloseCampaign)) = false.
Proof.
  split.
  - apply (X9_only_fundraiser_configures_or_closes Demo.world
             (Demo.at_time Demo.alice 2000, ConfigureCampaign "Mine" 1 9000)).
    left. discriminate.
  - apply (X9_only_fundraiser_configures_or_closes Demo.world
             (Demo.at_time Demo.alice 2000, CloseCampaign)).
    left. discriminate.
Defined.




(** ** Who can decrypt what *)








(** ** Edge cases of [contribute] *)

(** X13: [contribute] cannot tell a transfer of nothing from a real one.
    When the guards pass and the token returns a ciphertext of 0, the call
    goes through like any other: the caller gets an initialised contribution
    handle, [ContributionReceived] is logged with the ciphertext of 0,
    [lastContributionAt] advances, and the contribution and the total keep
    the values they had. *)
Theorem X13_contribution_of_nothing_is_recorded this e0 tok n t d w0 txs e a p :
  constructor this e0 tok n t d = Ok w0 ->
  let w := run w0 txs in
  accepts e a p w 0 ->
  exists k w',
    contribute e a p w = (Ok k, w')
    /\ contributionOf w' (msg_sender e) = k
    /\ FHE.isInitialized k = true
    /\ lastContributionAt w' = block_timestamp e
    /\ events w' = events w ++ [ContributionReceived (msg_sender e) (counter (fhe w))
                                  (block_timestamp e)]
    /\ plaintext (fhe w') !! counter (fhe w) = Some 0
    /\ plaintext (fhe w') !! k
         = Some (sum (amounts_of (msg_sender e) (accepted w0 txs)) mod two64)
    /\ plaintext (fhe w') !! totalRaised w'
         = Some (sum (amounts (accepted w0 txs)) mod two64).
Proof.
  intros H w Hacc.
  pose proof (reachable_Inv _ _ _ _ _ _ _ txs H) as I. fold w in I.
  destruct (contribute_ok e a p w 0 (inv_wf _ _ I) (Inv_stored_below _ _ I) Hacc)
    as (k & u & f' & E & _ & _ & Hk & _ & _ & Pt & Pk & Pu & _ & _).
  exists k. eexists. split; [exact E|].
  unfold contributionOf, contribution_at, totalRaised. cbn.
  rewrite lookup_insert_eq. cbn.
  split; [reflexivity|]. split.
  { unfold FHE.isInitialized. destruct (N.eqb_spec k 0); [lia | reflexivity]. }
  split; [reflexivity|]. split; [reflexivity|]. split; [exact Pt|].
  rewrite Z.add_0_r in Pk, Pu. split.
  - rewrite Pk. f_equal.
    destruct (amounts_of (msg_sender e) (accepted w0 txs)) as [|x l] eqn:El.
    + unfold contribution_at. rewrite (inv_fresh _ _ I _ El). cbn.
      now rewrite (reveal_zero _ (inv_wf _ _ I)).
    + destruct (inv_contribution _ _ I (msg_sender e)) as [(_ & Hp & _) _];
        [now rewrite El|].
      unfold reveal. rewrite Hp, El. cbn [default from_option id]. apply Zmod_mod.
  - rewrite Pu. f_equal.
    destruct (accepted w0 txs) as [|x l] eqn:El.
    + rewrite (inv_total_fresh _ _ I eq_refl). now rewrite (reveal_zero _ (inv_wf _ _ I)).
    + destruct (inv_total _ _ I) as (_ & Hp & _); [discriminate|].
      unfold reveal. rewrite Hp. cbn [default from_option id]. apply Zmod_mod.
Qed.

Lemma X13_contribution_of_nothing_is_recorded_witness :
  let w := run Demo.world [(Demo.at_time Demo.alice 2000, Contribute 2500000%N [])] in
  exists k w',
    contribute (Demo.at_time Demo.bob 2100) 0%N [] w = (Ok k, w')
    /\ contributionOf w' Demo.bob = k
    /\ FHE.isInitialized k = true
    /\ lastContributionAt w' = 2100
    /\ events w' = events w ++ [ContributionReceived Demo.bob (counter (fhe w)) 2100]
    /\ plaintext (fhe w') !! counter (fhe w) = Some 0
    /\ plaintext (fhe w') !! k = Some 0
    /\ plaintext (fhe w') !! totalRaised w' = Some 2500000.
Proof.
  intros w.
  apply (X13_contribution_of_nothing_is_recorded _ _ _ _ _ _ _
           [(Demo.at_time Demo.alice 2000, Contribute 2500000%N [])]
           (Demo.at_time Demo.bob 2100) 0%N [] Demo_deployed).
  unfold accepts. vm_compute. repeat split. discriminate.
Defined.

(** ** Block times *)

Lemma within_campaign_run txs : forall w acc now,
  Inv w acc ->
  lastContributionAt w <= endTime (_campaign w) ->
  lastContributionAt w <= now ->
  nondecreasing now txs ->
  lastContributionAt (run w txs) <= endTime (_campaign (run w txs))
  /\ lastContributionAt (run w txs) <= end_of now txs.
Proof.
  induction txs as [|tx txs IH]; intros w acc now I He Hn Hord; [cbn; auto|].
  destruct Hord as [Hle Hord].
  change (run w (tx :: txs)) with (run (step w tx) txs).
  change (end_of now (tx :: txs)) with (end_of (block_timestamp (fst tx)) txs).
  apply (IH (step w tx) (acc ++ recorded w tx)); [apply step_Inv, I | | | exact Hord].
  - destruct (step_Stepped w acc tx I)
      as [| n' t' d' _ _ _ Hv | a p v k u f' _ Hacc _ _ _ _ _ _ _ _ _ _ | _ _ _ _].
    + exact He.
    + unfold valid_campaign in Hv. apply andb_prop in Hv as [_ Hd].
      apply Z.ltb_lt in Hd. cbn. lia.
    + destruct Hacc as (_ & Ht & _). cbn. exact Ht.
    + unfold closed_world, closing. now destruct (FHE.isInitialized _).
  - destruct (step_Stepped w acc tx I)
      as [| n' t' d' _ _ _ _ | a p v k u f' _ _ _ _ _ _ _ _ _ _ _ _ | _ _ _ _].
    + lia.
    + cbn. lia.
    + cbn. lia.
    + unfold closed_world, closing. destruct (FHE.isInitialized _); cbn; lia.
Qed.

(** X14: when block times are not negative and never go back,
    [lastContributionAt] never exceeds the current end time of the campaign
    nor the time of the last transaction: a later [configureCampaign] cannot
    move the end time before a contribution that was already accepted. *)
Theorem X14_lastContributionAt_within_campaign this e tok n t d w0 txs :
  constructor this e tok n t d = Ok w0 ->
  0 <= block_timestamp e ->
  nondecreasing (block_timestamp e) txs ->
  let w := run w0 txs in
  lastContributionAt w <= endTime (_campaign w)
  /\ lastContributionAt w <= end_of (block_timestamp e) txs.
Proof.
  intros H H0 Hord w.
  destruct (constructor_Ok_inv _ _ _ _ _ _ _ H) as (_ & Hv & E).
  unfold valid_campaign in Hv. apply andb_prop in Hv as [_ Hd]. apply Z.ltb_lt in Hd.
  apply (within_campaign_run txs w0 []); [apply (Inv_init _ _ _ _ _ _ _ H) | | | exact Hord].
  - subst w0. cbn. lia.
  - subst w0. cbn. lia.
Qed.

Lemma X14_lastContributionAt_within_campaign_witness :
  let w := run Demo.world
             [(Demo.at_time Demo.alice 2000, Contribute 5%N []);
              (Demo.at_time Demo.deployer 2500, ConfigureCampaign "Relief Pool" 5000000 2600)] in
  lastContributionAt w <= endTime (_campaign w) /\ lastContributionAt w <= 2500.
Proof.
  apply (X14_lastContributionAt_within_campaign _ _ _ _ _ _ _
           [(Demo.at_time Demo.alice 2000, Contribute 5%N []);
            (Demo.at_time Demo.deployer 2500, ConfigureCampaign "Relief Pool" 5000000 2600)]
           Demo_deployed).
  - vm_compute. discriminate.
  - cbn. lia.
Defined.

(** * Properties of the front end *)

(** X15: [campaignStatus] on the answers of the contract at one block, for a
    block time that is not negative and an end time in the range of
    [uint64].  The status is "Closed" exactly on a closed campaign, "Active"
    exactly on an open campaign before its end time, and "Awaiting close"
    exactly on an open campaign from its end time on.  While it is "Active",
    [contribute] reverts neither with "Campaign closed" nor with "Past end
    time"; at the end time itself it is already "Awaiting close" although
    [contribute] is still not past the end time.  Without campaign data it is
    "Loading...", and an open campaign whose [timeRemaining] has no data yet
    is shown as "Awaiting close". *)
Theorem X15_campaignStatus_follows_contract e w :
  0 <= block_timestamp e ->
  0 <= endTime (_campaign w) < two64 ->
  let status := campaignStatus (Some (getCampaign w)) (Some (timeRemaining e w)) in
  (status = "Closed" <-> isClosed w = true)
  /\ (status = "Active" <->
        isClosed w = false /\ block_timestamp e < endTime (_campaign w))
  /\ (status = "Awaiting close" <->
        isClosed w = false /\ endTime (_campaign w) <= block_timestamp e)
  /\ (status = "Active" ->
        forall a p, fst (contribute e a p w) <> Revert Campaign_closed
                    /\ fst (contribute e a p w) <> Revert Past_end_time)
  /\ (isClosed w = false -> block_timestamp e = endTime (_campaign w) ->
        status = "Awaiting close"
        /\ forall a p, fst (contribute e a p w) <> Revert Past_end_time)
  /\ (forall r, campaignStatus None r = "Loading...")
  /\ (isClosed w = false -> campaignStatus (Some (getCampaign w)) None = "Awaiting close").
Proof.
  intros Hn Hd status.
  destruct (timeRemaining_max e w Hn Hd) as (_ & Hr & Hz).
  assert (Hs : status =
            if isClosed w then "Closed"
            else if endTime (_campaign w) <=? block_timestamp e
                 then "Awaiting close" else "Active").
  { unfold status, campaignStatus, getCampaign. destruct (isClosed w); [reflexivity|].
    destruct (Z.leb_spec (endTime (_campaign w)) (block_timestamp e)) as [Hle|Hlt].
    - apply Hz in Hle. rewrite Hle. reflexivity.
    - assert (timeRemaining e w <> 0) by (rewrite Hz; lia).
      destruct (Z.eqb_spec (timeRemaining e w) 0); [contradiction|].
      destruct (Z.leb_spec (timeRemaining e w) 0); [lia | reflexivity]. }
  assert (Hact : status = "Active" <->
                 isClosed w = false /\ block_timestamp e < endTime (_campaign w)).
  { rewrite Hs. destruct (isClosed w); [split; [discriminate | intros [? _]; discriminate]|].
    destruct (Z.leb_spec (endTime (_campaign w)) (block_timestamp e));
      split; try discriminate; try (intros [_ ?]; lia); auto. }
  assert (Hawait : status = "Awaiting close" <->
                   isClosed w = false /\ endTime (_campaign w) <= block_timestamp e).
  { rewrite Hs. destruct (isClosed w); [split; [discriminate | intros [? _]; discriminate]|].
    destruct (Z.leb_spec (endTime (_campaign w)) (block_timestamp e));
      split; try discriminate; try (intros [_ ?]; lia); auto. }
  split.
  { rewrite Hs. destruct (isClosed w); [split; reflexivity|].
    destruct (endTime (_campaign w) <=? block_timestamp e); split; discriminate. }
  split; [exact Hact|]. split; [exact Hawait|]. split.
  { intros Ha a p. apply Hact in Ha as [Hc Hlt]. split.
    - unfold contribute, transact. rewrite contribute_body_eq, Hc.
      destruct (Z.leb_spec (block_timestamp e) (endTime (_campaign w))); [|lia]. cbn [negb].
      destruct (negb _); [discriminate|].
      destruct (confidentialTransferFrom _ _ _ _ _) as [v|]; [|discriminate].
      destruct (bookkeeping_returns e (counter (fhe w)) (moved_in e v w)) as (k & w1 & ->).
      discriminate.
    - rewrite contribute_past_end_iff. intros [_ ?]. lia. }
  split.
  { intros Hc Heq. split; [apply Hawait; split; [exact Hc | lia]|].
    intros a p. rewrite contribute_past_end_iff. intros [_ ?]. lia. }
  split; [reflexivity|].
  intros Hc. unfold campaignStatus, getCampaign. now rewrite Hc.
Qed.

Lemma X15_campaignStatus_follows_contract_witness :
  campaignStatus (Some (getCampaign Demo.world))
    (Some (timeRemaining (Demo.at_time Demo.alice 4600) Demo.world)) = "Awaiting close"
  /\ fst (contribute (Demo.at_time Demo.alice 4600) 5%N [] Demo.world)
       <> Revert Past_end_time.
Proof.
  destruct (X15_campaignStatus_follows_contract (Demo.at_time Demo.alice 4600) Demo.world
              ltac:(vm_compute; discriminate)
              ltac:(vm_compute; split; [discriminate | reflexivity]))
    as (_ & _ & _ & _ & H & _).
  destruct (H eq_refl eq_refl) as [Hs Hc]. split; [exact Hs | exact (Hc 5%N [])].
Defined.



(** * Further properties: construction, closing and the campaign window *)

(** X17: the outcomes of construction.  The token check comes first, then
    the checks of [_setCampaign] in their order, with the reasons
    [configureCampaign] gives; a deployment succeeds exactly when the token
    address is not zero and a [configureCampaign] with the same arguments,
    sent by the fundraiser in the same block to an open campaign, would. *)
Theorem X17_constructor_outcomes this e tok n t d :
  constructor this e tok n t d =
    (if (tok =? 0)%N then Revert Token_required
     else if negb (0 <? String.length n)%nat then Revert Name_required
     else if negb (0 <? t) then Revert Target_required
     else if negb (block_timestamp e <? d) then Revert End_time_must_be_in_future
     else Ok (configured n t d (set_immutables (msg_sender e) tok (blank this))))
  /\ forall w, isClosed w = false -> msg_sender e = fundraiser w ->
       ((exists w0, constructor this e tok n t d = Ok w0) <->
        tok <> 0%N /\ fst (configureCampaign e n t d w) = Ok tt).
Proof.
  assert (E : constructor this e tok n t d =
    (if (tok =? 0)%N then Revert Token_required
     else if negb (0 <? String.length n)%nat then Revert Name_required
     else if negb (0 <? t) then Revert Target_required
     else if negb (block_timestamp e <? d) then Revert End_time_must_be_in_future
     else Ok (configured n t d (set_immutables (msg_sender e) tok (blank this))))).
  { unfold constructor, constructor_body.
    unfold mbind at 1; unfold M_bind at 1. unfold require at 1.
    destruct (tok =? 0)%N; [reflexivity|]. cbn [negb].
    unfold mret at 1, M_ret at 1. unfold mbind at 1; unfold M_bind at 1. unfold store at 1.
    rewrite setCampaign_eq. cbn [isClosed blank set_immutables].
    destruct (negb (0 <? String.length n)%nat); [reflexivity|].
    destruct (negb (0 <? t)); [reflexivity|].
    destruct (negb (block_timestamp e <? d)); reflexivity. }
  split; [exact E|].
  intros w Hc Hs. rewrite E, configureCampaign_eq, Hc.
  rewrite bool_decide_eq_true_2 by exact Hs. cbn [negb].
  destruct (N.eqb_spec tok 0) as [->|Htok].
  - split; [intros [w0 ?]; discriminate | intros [? _]; contradiction].
  - destruct (negb (0 <? String.length n)%nat);
      [split; [intros [w0 ?]; discriminate | intros [_ ?]; discriminate]|].
    destruct (negb (0 <? t));
      [split; [intros [w0 ?]; discriminate | intros [_ ?]; discriminate]|].
    destruct (negb (block_timestamp e <? d));
      [split; [intros [w0 ?]; discriminate | intros [_ ?]; discriminate]|].
    split; [auto | eauto].
Qed.

Lemma X17_constructor_outcomes_witness :
  (exists w0, constructor Demo.this (Demo.at_time Demo.deployer 2000) Demo.tokenAddress
                "Relief Pool II" 6000000 9000 = Ok w0)
  <-> Demo.tokenAddress <> 0%N
      /\ fst (configureCampaign (Demo.at_time Demo.deployer 2000) "Relief Pool II"
                6000000 9000 Demo.world) = Ok tt.
Proof.
  apply (proj2 (X17_constructor_outcomes Demo.this (Demo.at_time Demo.deployer 2000)
                  Demo.tokenAddress "Relief Pool II" 6000000 9000) Demo.world);
    reflexivity.
Defined.

(** X18: the fundraiser can close at any time.  Whether [closeCampaign]
    goes through does not depend on the block time nor on the campaign
    metadata: there is no end-time check, so the campaign can be closed
    before its end time as well as after it. *)
Theorem X18_close_ignores_time_and_metadata e1 e2 c w :
  msg_sender e1 = msg_sender e2 -> token e1 = token e2 ->
  fst (closeCampaign e1 w) = fst (closeCampaign e2 (set_campaign c w))
  /\ isClosed (snd (closeCampaign e1 w)) = isClosed (snd (closeCampaign e2 (set_campaign c w))).
Proof.
  intros Hs Ht. rewrite !closeCampaign_eq, Hs, Ht.
  change (fundraiser (set_campaign c w)) with (fundraiser w).
  change (isClosed (set_campaign c w)) with (isClosed w).
  change (payout_of (set_campaign c w)) with (payout_of w).
  destruct (negb _); [auto|]. destruct (isClosed w) eqn:Hc; [auto|].
  destruct (confidentialTransfer _ _ _); [|auto].
  split; [reflexivity|].
  unfold closed_world, closing.
  change (_totalRaised (set_campaign c w)) with (_totalRaised w).
  now destruct (FHE.isInitialized _).
Qed.

Lemma X18_close_ignores_time_and_metadata_witness :
  fst (closeCampaign (Demo.at_time Demo.deployer 9999) Demo.world) = Ok tt
  /\ Ok tt = fst (closeCampaign (Demo.at_time Demo.deployer 1001) Demo.world).
Proof.
  split; [reflexivity|].
  apply (proj1 (X18_close_ignores_time_and_metadata (Demo.at_time Demo.deployer 9999)
                  (Demo.at_time Demo.deployer 1001) (_campaign Demo.world) Demo.world
                  eq_refl eq_refl)).
Defined.

(** X19: [configureCampaign] moves the window of the campaign.  After a
    [configureCampaign] that went through with end time [d], [contribute]
    does not revert with "Campaign closed", and it reverts with "Past end
    time" exactly after [d], whatever the end time was before: the fundraiser
    can reopen an open campaign whose end time has passed. *)
Theorem X19_configure_moves_the_window e n t d w w' e' a p :
  configureCampaign e n t d w = (Ok tt, w') ->
  fst (contribute e' a p w') <> Revert Campaign_closed
  /\ (fst (contribute e' a p w') = Revert Past_end_time <-> d < block_timestamp e').
Proof.
  rewrite configureCampaign_eq.
  destruct (negb _); [discriminate|]. destruct (isClosed w) eqn:Hc; [discriminate|].
  destruct (negb _); [discriminate|]. destruct (negb _); [discriminate|].
  destruct (negb _); [discriminate|].
  intros H. inversion H; subst w'. clear H. split.
  - unfold contribute, transact. rewrite contribute_body_eq.
    change (isClosed (configured n t d w)) with (isClosed w). rewrite Hc.
    destruct (negb _); [discriminate|]. destruct (negb _); [discriminate|].
    destruct (confidentialTransferFrom _ _ _ _ _) as [v|]; [|discriminate].
    match goal with |- context [bookkeeping ?x ?y ?z] =>
      destruct (bookkeeping_returns x y z) as (k & w1 & ->) end.
    discriminate.
  - rewrite contribute_past_end_iff.
    change (isClosed (configured n t d w)) with (isClosed w).
    change (endTime (_campaign (configured n t d w))) with d.
    split; [intros [_ ?]; assumption | auto].
Qed.

Lemma X19_configure_moves_the_window_witness :
  let w' := snd (configureCampaign (Demo.at_time Demo.deployer 5000) "Relief Pool" 5000000 9000
                   Demo.world) in
  fst (contribute (Demo.at_time Demo.alice 5000) 5%N [] Demo.world) = Revert Past_end_time
  /\ fst (contribute (Demo.at_time Demo.alice 5000) 5%N [] w') <> Revert Past_end_time.
Proof.
  intros w'. split; [reflexivity|].
  destruct (X19_configure_moves_the_window (Demo.at_time Demo.deployer 5000) "Relief Pool"
              5000000 9000 Demo.world w' (Demo.at_time Demo.alice 5000) 5%N [] eq_refl)
    as [_ H].
  intros Hp. apply H in Hp. cbn in Hp. lia.
Defined.

(** X20: the target is never enforced.  Whether [contribute] goes through,
    and with which reason it reverts, depends on the end time only among the
    campaign metadata: not on the name and not on the target, however much
    has been raised. *)
Theorem X20_target_is_not_enforced e a p w c :
  endTime c = endTime (_campaign w) ->
  outcome (contribute e a p (set_campaign c w)) = outcome (contribute e a p w).
Proof.
  intros Hd. unfold contribute, transact, outcome. rewrite !contribute_body_eq.
  change (isClosed (set_campaign c w)) with (isClosed w).
  change (_campaign (set_campaign c w)) with c.
  change (self (set_campaign c w)) with (self w).
  rewrite Hd.
  destruct (isClosed w); [reflexivity|].
  destruct (negb _); [reflexivity|]. destruct (negb _); [reflexivity|].
  destruct (confidentialTransferFrom _ _ _ _ _) as [v|]; [|reflexivity].
  destruct (bookkeeping_returns e (counter (fhe (set_campaign c w)))
              (moved_in e v (set_campaign c w))) as (k1 & w1 & ->).
  destruct (bookkeeping_returns e (counter (fhe w)) (moved_in e v w)) as (k2 & w2 & ->).
  reflexivity.
Qed.

Lemma X20_target_is_not_enforced_witness :
  outcome (contribute (Demo.at_time Demo.alice 2000) 5%N []
             (set_campaign {| name := "Relief Pool"; targetAmount := 1; endTime := 4600 |}
                (run Demo.world [(Demo.at_time Demo.bob 1500, Contribute 2500000%N [])])))
  = Ok tt.
Proof.
  rewrite (X20_target_is_not_enforced (Demo.at_time Demo.alice 2000) 5%N []
             (run Demo.world [(Demo.at_time Demo.bob 1500, Contribute 2500000%N [])])
             {| name := "Relief Pool"; targetAmount := 1; endTime := 4600 |} eq_refl).
  vm_compute. reflexivity.
Defined.

(** X21: the closing is logged once and last.  In every state reached from
    a deployment, the log has no [CampaignClosed] event while the campaign is
    open; once it is closed the log ends with the only [CampaignClosed]
    event, which names the fundraiser and carries the ciphertext of the one
    transfer out of the contract. *)
Theorem X21_closing_is_logged_last this e tok n t d w0 txs :
  constructor this e tok n t d = Ok w0 ->
  let w := run w0 txs in
  (isClosed w = false -> closure_log w = [])
  /\ (isClosed w = true ->
      exists h ts,
        last (events w) = Some (CampaignClosed (fundraiser w) h ts)
        /\ closure_log w = [(fundraiser w, h, ts)]
        /\ outflows w = [(fundraiser w, h)]).
Proof.
  intros H w.
  set (P := fun (w : World) (_ : list (N * Z * Z)) =>
    (isClosed w = false -> closure_log w = [] /\ outflows w = [])
    /\ (isClosed w = true ->
        exists h ts,
          last (events w) = Some (CampaignClosed (fundraiser w) h ts)
          /\ closure_log w = [(fundraiser w, h, ts)]
          /\ outflows w = [(fundraiser w, h)])).
  enough (G : P w (receipts w0 txs)).
  { destruct G as [G1 G2]. split; [|exact G2]. intros Hc. now apply G1. }
  apply (reach_ind P _ _ _ _ _ _ _ H).
  - destruct (constructor_Ok_inv _ _ _ _ _ _ _ H) as (_ & _ & ->).
    split; [intros _; split; reflexivity | discriminate].
  - intros w1 rs tx w' r _ [Ho Hc] S. unfold P, closure_log, outflows in *.
    destruct S as [| n' t' d' _ _ Hop _ | a p v k u f' _ Hacc _ _ _ _ _ _ _ _ _ _ | _ _ Hop _].
    + auto.
    + unfold configured. cbn. rewrite Hop. split; [|discriminate]. intros _.
      rewrite omap_snoc_None by reflexivity. now apply Ho.
    + destruct Hacc as (Hop & _). cbn. rewrite Hop. split; [|discriminate]. intros _.
      rewrite !omap_snoc_None by reflexivity. now apply Ho.
    + unfold closed_world. cbn [calls events isClosed fundraiser add_event add_call].
      assert (E : calls (closing w1) = calls w1 /\ events (closing w1) = events w1
                  /\ isClosed (closing w1) = true
                  /\ fundraiser (closing w1) = fundraiser w1)
        by (unfold closing; now destruct (FHE.isInitialized _)).
      destruct E as (-> & -> & -> & ->). split; [discriminate|]. intros _.
      destruct (Ho Hop) as [Hl Hf].
      exists (payout_of w1), (block_timestamp (fst tx)).
      rewrite last_snoc. erewrite !omap_snoc_Some by reflexivity.
      rewrite Hl, Hf. auto.
Qed.

Lemma X21_closing_is_logged_last_witness :
  let w := run Demo.world [(Demo.at_time Demo.alice 2000, Contribute 2500000%N []);
                           (Demo.at_time Demo.deployer 6000, CloseCampaign);
                           (Demo.at_time Demo.alice 6100, Contribute 5%N [])] in
  exists h ts,
    last (events w) = Some (CampaignClosed Demo.deployer h ts)
    /\ closure_log w = [(Demo.deployer, h, ts)]
    /\ outflows w = [(Demo.deployer, h)].
Proof.
  intros w.
  apply (proj2 (X21_closing_is_logged_last _ _ _ _ _ _ _
                  [(Demo.at_time Demo.alice 2000, Contribute 2500000%N []);
                   (Demo.at_time Demo.deployer 6000, CloseCampaign);
                   (Demo.at_time Demo.alice 6100, Contribute 5%N [])] Demo_deployed)).
  reflexivity.
Defined.
